(** * Workforce dashboard: normalisation and CSV export of [table-script.tsx]

    A shallow embedding of the data pipeline of [src/table-script.tsx]:
    [parseUtil], [getMonthUtil], the filter/map pass of [loadData] and
    [handleExport], together with the parts of the JavaScript language the
    pipeline relies on ([parseFloat], [Number::toString], [??], [?.],
    property access on [undefined]) and with [Papa.unparse] of the
    papaparse package, which [handleExport] calls. *)

From Stdlib Require Import ZArith NArith List String Ascii Bool Lia DecimalString DecimalN.
From Stdlib Require Import Permutation.
From Stdlib Require Import Floats.SpecFloat Floats.FloatOps Floats.PrimFloat.
Import ListNotations.

Local Open Scope string_scope.

(** ** JavaScript numbers

    A Number is an IEEE 754 binary64 value with a single NaN: this is the
    [spec_float] of the Standard Library at precision 53 and maximal
    exponent 1024. *)
Module JSNumber.

Local Open Scope Z_scope.

Definition number : Type := spec_float.

Definition NaN : number := S754_nan.
Definition Infinity (negative : bool) : number := S754_infinity negative.
Definition zero : number := S754_zero false.

(** [roundRatio s n d] is the Number nearest to [(-1)^s * n / d] (ties to
    even, overflow to an infinity, underflow to a zero of the same sign).
    The quotient is computed with at least 55 significant bits and the
    position of the remainder is handed to the rounding of [SpecFloat]. *)
Definition roundRatio (s : bool) (n d : positive) : number :=
  let sh := Z.max 0 (Zdigits2 (Zpos d) - Zdigits2 (Zpos n) + 55) in
  let '(q, r) := Z.div_eucl (Z.shiftl (Zpos n) sh) (Zpos d) in
  binary_round_aux prec emax s q (- sh) (new_location (Zpos d) r).

(** The Number value of the mathematical value [(-1)^s * m * 10^e]; a zero
    mantissa keeps the sign, as in [StringNumericValue]. *)
Definition roundDecimal (s : bool) (m : N) (e : Z) : number :=
  match m with
  | N0 => S754_zero s
  | Npos p =>
      match e with
      | Zneg k => roundRatio s p (Pos.pow 10 k)
      | Z0 => roundRatio s p 1
      | Zpos k => roundRatio s (p * Pos.pow 10 k) 1
      end
  end.

(** *** [parseFloat]: ECMA-262, 19.2.4 *)

(** White space and line terminators among the code units below 256. *)
Definition isWhiteSpace (c : ascii) : bool :=
  let n := N_of_ascii c in
  ((9 <=? n) && (n <=? 13) || (n =? 32) || (n =? 160))%N.

Fixpoint trimStart (s : string) : string :=
  match s with
  | String c s' => if isWhiteSpace c then trimStart s' else s
  | EmptyString => s
  end.

Definition digitValue (c : ascii) : option N :=
  let n := N_of_ascii c in
  if ((48 <=? n) && (n <=? 57))%N then Some (n - 48)%N else None.

(** Longest run of decimal digits at the head of [s]: the value
    accumulated on top of [acc], the number of digits read added to [cnt],
    and what follows. *)
Fixpoint scanDigits (acc : N) (cnt : N) (s : string) : N * N * string :=
  match s with
  | String c s' =>
      match digitValue c with
      | Some d => scanDigits (10 * acc + d)%N (cnt + 1)%N s'
      | None => (acc, cnt, s)
      end
  | EmptyString => (acc, cnt, s)
  end.

Definition isExponentIndicator (c : ascii) : bool :=
  (Ascii.eqb c "e" || Ascii.eqb c "E")%char.

(** What follows the character [c] when [s] starts with it. *)
Definition afterChar (c : ascii) (s : string) : option string :=
  match s with
  | String d r => if Ascii.eqb d c then Some r else None
  | EmptyString => None
  end.

(** An optional sign at the head of [s]: whether it is a minus, and what
    follows. *)
Definition scanSign (s : string) : bool * string :=
  match afterChar "-" s with
  | Some r => (true, r)
  | None =>
      match afterChar "+" s with
      | Some r => (false, r)
      | None => (false, s)
      end
  end.

(** [ExponentPart_opt]: the exponent when a complete exponent part is at
    the head of [s], and [0] when there is none (an [e] with no digit after
    the optional sign is not part of the literal). *)
Definition scanExponent (s : string) : Z :=
  match s with
  | String c s' =>
      if isExponentIndicator c then
        let '(negative, ds) := scanSign s' in
        let '(v, cnt, _) := scanDigits 0 0 ds in
        if (cnt =? 0)%N then 0
        else if negative then - Z.of_N v else Z.of_N v
      else 0
  | EmptyString => 0
  end.

Inductive literal : Type :=
  | LitInfinity
  | LitDecimal (m : N) (e : Z).

(** Longest prefix of [s] that is a [StrUnsignedDecimalLiteral]:
    [Infinity], [digits . digits_opt exp_opt], [. digits exp_opt] or
    [digits exp_opt]; [None] when no prefix is one. *)
Definition strUnsignedDecimalLiteral (s : string) : option literal :=
  if String.prefix "Infinity" s then Some LitInfinity
  else
    let '(ip, ni, r1) := scanDigits 0 0 s in
    match afterChar "." r1 with
    | Some r2 =>
        let '(m, nf, r3) := scanDigits ip 0 r2 in
        if ((ni =? 0) && (nf =? 0))%N then None
        else Some (LitDecimal m (scanExponent r3 - Z.of_N nf))
    | None =>
        if (ni =? 0)%N then None
        else Some (LitDecimal ip (scanExponent r1))
    end.

Definition parseFloat (s : string) : number :=
  let '(negative, u) := scanSign (trimStart s) in
  match strUnsignedDecimalLiteral u with
  | None => NaN
  | Some LitInfinity => Infinity negative
  | Some (LitDecimal m e) => roundDecimal negative m e
  end.

(** *** [Number::toString] in radix 10: ECMA-262, 6.1.6.1.20 *)

(** A positive finite value [m * 2^e] as a fraction. *)
Definition fraction (m : positive) (e : Z) : Z * Z :=
  match e with
  | Zneg k => (Zpos m, Zpos (Pos.pow 2 k))
  | Z0 => (Zpos m, 1)
  | Zpos k => (Zpos (m * Pos.pow 2 k), 1)
  end.

(** Number of decimal digits of [q], for [0 <= q] of at most [fuel] digits. *)
Fixpoint digits10 (fuel : nat) (q : Z) : Z :=
  match fuel with
  | O => 0
  | S f => if q =? 0 then 0 else 1 + digits10 f (q / 10)
  end.

(** For [a < b]: how many times [a] is multiplied by ten before it reaches
    [b], counted on top of [j]. *)
Fixpoint leadingShift (fuel : nat) (a b : Z) (j : Z) : Z :=
  match fuel with
  | O => j
  | S f => if b <=? a then j else leadingShift f (10 * a) b (j + 1)
  end.

(** The integer [n] with [10^(n-1) <= a/b < 10^n], for [0 < a] and [0 < b]. *)
Definition decimalExponent (a b : Z) : Z :=
  if b <=? a then digits10 (Z.to_nat (Z.log2 a) + 1) (a / b)
  else 1 - leadingShift (Z.to_nat (Z.log2 b) + 1) a b 0.

(** The two [k]-digit decimals around [a/b] (of decimal exponent [n]): the
    digits [s] below with the remainder locating [a/b] between [s] and
    [s + 1], in units of [10^(n-k)]. *)
Definition scaled (a b n : Z) (k : Z) : Z * location :=
  let '(num, den) :=
    if n <=? k then (a * 10 ^ (k - n), b) else (a, b * 10 ^ (n - k)) in
  let '(q, r) := Z.div_eucl num den in
  (q, new_location den r).

(** A candidate [s * 10^(n-k)], renormalised when [s] reaches [10^k]. *)
Definition candidate (k n s : Z) : Z * Z :=
  if s =? 10 ^ k then (10 ^ (k - 1), n + 1) else (s, n).

(** The decimal [s * 10^(n-k)] has [x] as its Number value. *)
Definition roundTrips (x : number) (k : Z) (c : Z * Z) : bool :=
  let '(s, n) := c in
  match SFcompare (roundDecimal false (Z.to_N s) (n - k)) x with
  | Some Eq => true
  | _ => false
  end.

(** The digits [s] and exponent [n] chosen with [k] digits, if some
    [k]-digit decimal rounds to [x]: the one nearest to [x], the even one
    on a tie. *)
Definition chooseDigits (x : number) (a b n k : Z) : option (Z * Z) :=
  let '(s, l) := scaled a b n k in
  let lo := candidate k n s in
  let hi := candidate k n (s + 1) in
  let preferLo :=
    match l with
    | loc_Exact | loc_Inexact Lt => true
    | loc_Inexact Eq => Z.even s
    | loc_Inexact Gt => false
    end in
  match roundTrips x k lo, roundTrips x k hi with
  | true, true => Some (if preferLo then lo else hi)
  | true, false => Some lo
  | false, true => Some hi
  | false, false => None
  end.

(** The decimal [s * 10^E] found with the least number of digits [k] in
    [k0 .. k0 + fuel], as the pair [(s, E)]; past the fuel, the digits
    below [a/b] with [k0 + fuel] digits. *)
Fixpoint shortest (fuel : nat) (x : number) (a b n k : Z) : Z * Z :=
  match chooseDigits x a b n k with
  | Some (s, n') => (s, n' - k)
  | None =>
      match fuel with
      | O => (fst (scaled a b n k), n - k)
      | S f => shortest f x a b n (k + 1)
      end
  end.

(** The decimal digits of a natural number. *)
Definition decimalString (z : Z) : string :=
  DecimalString.NilEmpty.string_of_uint (N.to_uint (Z.to_N z)).

Fixpoint zeros (n : nat) : string :=
  match n with
  | O => EmptyString
  | S n' => String "0"%char (zeros n')
  end.

(** Steps 6 to 10 of [Number::toString]: the [k] digits [ds] laid out for
    the decimal exponent [n]. *)
Definition layout (ds : string) (k n : Z) : string :=
  if (k <=? n) && (n <=? 21) then
    (ds ++ zeros (Z.to_nat (n - k)))%string
  else if (0 <? n) && (n <=? 21) then
    (String.substring 0 (Z.to_nat n) ds ++ "."
       ++ String.substring (Z.to_nat n) (Z.to_nat (k - n)) ds)%string
  else if (-6 <? n) && (n <=? 0) then
    ("0." ++ zeros (Z.to_nat (- n)) ++ ds)%string
  else
    let e := n - 1 in
    let sign := if e <? 0 then "-"%string else "+"%string in
    let mant :=
      if k =? 1 then ds
      else (String.substring 0 1 ds ++ "."
              ++ String.substring 1 (Z.to_nat (k - 1)) ds)%string in
    (mant ++ "e" ++ sign ++ decimalString (Z.abs e))%string.

(** An upper bound on the digits of the exact decimal expansion of
    [m * 2^e], of decimal exponent [n]; the search for the shortest digits
    ends there at the latest (and within seventeen digits in practice). *)
Definition digitsBound (n e : Z) : nat := Z.to_nat (Z.max 17 (n - Z.min e 0)).

(** Steps 1 to 5: NaN, the zeros, the sign and the infinities, then the
    shortest digits [s] that read back as [x], searched from one digit
    upwards; [k] is the number of digits of [s] and [n] the decimal exponent
    of the decimal they denote. *)
Definition Number_toString (x : number) : string :=
  match x with
  | S754_nan => "NaN"
  | S754_zero _ => "0"
  | S754_infinity s => if s then "-Infinity" else "Infinity"
  | S754_finite s m e =>
      let '(a, b) := fraction m e in
      let n := decimalExponent a b in
      let '(d, E) :=
        shortest (digitsBound n e) (binary_round prec emax false m e) a b n 1 in
      let ds := decimalString d in
      let k := Z.of_nat (String.length ds) in
      ((if s then "-" else "") ++ layout ds k (E + k))%string
  end.

(** *** [Number.prototype.toFixed] with no fraction digit: ECMA-262, 21.1.3.3 *)

(** [x.toFixed(0)]: the integer nearest to [x], the larger one on a tie,
    below [10^21]; the text of [x] itself otherwise. *)
Definition Number_toFixed0 (x : number) : string :=
  match x with
  | S754_zero _ => "0"
  | S754_finite s m e =>
      let '(a, b) := fraction m e in
      if 10 ^ 21 * b <=? a then Number_toString x
      else
        ((if s then "-" else "") ++ decimalString ((2 * a + b) / (2 * b)))%string
  | _ => Number_toString x
  end.

(** [x * y]. *)
Definition Number_multiply (x y : number) : number := SFmul prec emax x y.

End JSNumber.

Import JSNumber.

(** ** The fragment of JavaScript the script is written in *)

(** [a ?? b] with a right operand that is never [undefined]. *)
Definition coalesce {A : Type} (x : option A) (d : A) : A :=
  match x with
  | Some v => v
  | None => d
  end.

(** [a ?? b] where [b] itself may be [undefined]. *)
Definition coalesceOpt {A : Type} (x y : option A) : option A :=
  match x with
  | Some _ => x
  | None => y
  end.

(** [x?.f] for a field [f] that is always present in the object. *)
Definition chain {A B : Type} (x : option A) (f : A -> B) : option B :=
  match x with
  | Some v => Some (f v)
  | None => None
  end.

(** [x?.f] for an optional field, and [x?.m(...)] for a method whose
    result may be [undefined]. *)
Definition chainOpt {A B : Type} (x : option A) (f : A -> option B) : option B :=
  match x with
  | Some v => f v
  | None => None
  end.

(** [x === lit] for a string literal: code unit by code unit, and false on
    [undefined]. *)
Definition strictEq (x : option string) (lit : string) : bool :=
  match x with
  | Some s => String.eqb s lit
  | None => false
  end.

(** Evaluation either completes normally or throws. *)
Inductive JsError : Type :=
  | TypeError.

Inductive completion (A : Type) : Type :=
  | Normal (a : A)
  | Throw (e : JsError).

Arguments Normal {A} a.
Arguments Throw {A} e.

Definition bind {A B : Type} (c : completion A) (k : A -> completion B) : completion B :=
  match c with
  | Normal a => k a
  | Throw e => Throw e
  end.

Notation "x <- c ;; k" := (bind c (fun x => k))
  (at level 61, c at next level, right associativity).

(** [x.f] without a guard: a [TypeError] when [x] is [undefined]. *)
Definition getProp {A B : Type} (x : option A) (f : A -> B) : completion B :=
  match x with
  | Some v => Normal (f v)
  | None => Throw TypeError
  end.

(** [Array.prototype.map]: the callback runs on the elements from left to
    right and the first exception ends the call. *)
Fixpoint Array_map {A B : Type} (f : A -> completion B) (l : list A) : completion (list B) :=
  match l with
  | [] => Normal []
  | x :: t =>
      y <- f x ;;
      ys <- Array_map f t ;;
      Normal (y :: ys)
  end.

(** ** Data model *)

(** The declarations of [./types] ([SourceDataType] and [TableDataType])
    are not part of the sources; the records follow the data model of the
    specification and the fields the script reads. *)

(** Modelled from the spec: an entry of [lastThreeMonthsIndividually]. *)
Record MonthEntry : Type := {
  month : string;
  utilisationRate : string
}.

(** Modelled from the spec: the utilisation block of a person, every metric
    a string-encoded decimal or absent; [getMonthUtil] guards the month
    list with [?.], so it is optional too. *)
Record WorkforceUtilisation : Type := {
  utilisationRateLastTwelveMonths : option string;
  utilisationRateYearToDate : option string;
  monthlyCostDifference : option string;
  lastThreeMonthsIndividually : option (list MonthEntry)
}.

(** Modelled from the spec: a person block, with [lastname] and
    [workforceUtilisation] optional. *)
Record PersonBlock : Type := {
  status : string;
  jobType : string;
  firstname : string;
  lastname : option string;
  workforceUtilisation : option WorkforceUtilisation
}.

(** Modelled from the spec: a source record holds an optional employees
    block and an optional externals block. *)
Record SourceDataType : Type := {
  employees : option PersonBlock;
  externals : option PersonBlock
}.

(** The object built by the [map] callback of [loadData] (lines 67 to 75). *)
Record TableDataType : Type := {
  person : string;
  past12Months : option number;
  y2d : option number;
  may : option number;
  june : option number;
  july : option number;
  netEarningsPrevMonth : number
}.

(** ** The script *)

(** [parseUtil], lines 27 and 28. *)
Definition parseUtil (val : option string) : option number :=
  match val with
  | Some v => Some (parseFloat v)
  | None => None
  end.

(** [getMonthUtil], lines 31 to 35. *)
Definition getMonthUtil (util : option WorkforceUtilisation) (month' : string) : option number :=
  parseUtil
    (chain
       (chainOpt (chainOpt util lastThreeMonthsIndividually)
          (find (fun m => String.eqb (month m) month')))
       utilisationRate).

(** The callback of [filter] in [loadData], lines 55 to 57. *)
Definition loadData_filter (row : SourceDataType) : bool :=
  strictEq (chain (employees row) status) "active"
  || strictEq (chain (externals row) status) "active".

(** The template literal [`${p.firstname} ${p.lastname ?? ""}`] behind an
    optional prefix, with both property reads unguarded. *)
Definition fullName (prefix : string) (personData : option PersonBlock) : completion string :=
  fn <- getProp personData firstname ;;
  ln <- getProp personData lastname ;;
  Normal (prefix ++ fn ++ " " ++ coalesce ln "").

(** The callback of [map] in [loadData], lines 59 to 76. *)
Definition loadData_map (row : SourceDataType) : completion TableDataType :=
  let personData := coalesceOpt (employees row) (externals row) in
  let util := chainOpt personData workforceUtilisation in
  name <-
    (if strictEq (chain personData jobType) "external"
     then fullName "External " personData
     else fullName "" personData) ;;
  Normal {|
    person := name;
    past12Months := parseUtil (chainOpt util utilisationRateLastTwelveMonths);
    y2d := parseUtil (chainOpt util utilisationRateYearToDate);
    may := getMonthUtil util "May";
    june := getMonthUtil util "June";
    july := getMonthUtil util "July";
    netEarningsPrevMonth :=
      coalesce (parseUtil (chainOpt util monthlyCostDifference)) zero
  |}.

(** The value of [data] in [loadData], lines 51 to 76: [sourceData], the
    imported JSON document, is an argument. *)
Definition data (sourceData : list SourceDataType) : completion (list TableDataType) :=
  Array_map loadData_map (filter loadData_filter sourceData).

(** The two pieces of component state and [loadData] as a step on them. *)
Record AppState : Type := {
  loading : bool;
  tableData : list TableDataType
}.

Definition initialState : AppState := {| loading := true; tableData := [] |}.

Definition loadData (sourceData : list SourceDataType) (st : AppState) : completion AppState :=
  d <- data sourceData ;;
  Normal {| loading := false; tableData := d |}.

(** The [Cell] renderer of the five percentage columns, lines 94 to 97. *)
Definition percentCell (value : option number) : string :=
  match value with
  | Some v => Number_toFixed0 (Number_multiply v (roundDecimal false 100 0)) ++ "%"
  | None => "-"
  end.

(** ** Export *)

(** The value of a property of a row object, as the serialiser sees it. *)
Inductive cell : Type :=
  | CellString (s : string)
  | CellNumber (x : number)
  | CellUndefined.

Definition optionalCell (v : option number) : cell :=
  match v with
  | Some x => CellNumber x
  | None => CellUndefined
  end.

(** The properties of the object literal of lines 67 to 75, in the order in
    which the literal creates them. *)
Definition properties (r : TableDataType) : list (string * cell) :=
  [ ("person", CellString (person r));
    ("past12Months", optionalCell (past12Months r));
    ("y2d", optionalCell (y2d r));
    ("may", optionalCell (may r));
    ("june", optionalCell (june r));
    ("july", optionalCell (july r));
    ("netEarningsPrevMonth", CellNumber (netEarningsPrevMonth r)) ].

(** *** [Papa.unparse]

    The script imports [Papa] from the papaparse package and calls
    [Papa.unparse(data)] with an array of objects and no configuration.
    The definitions below follow the package's [unparse], [serialize] and
    [safe] on that path, with the default delimiter, quote character and
    line break, and with no column forced into quotes. *)
Module Papa.

Definition quoteChar : ascii := "034"%char.
Definition delimiter : ascii := ","%char.
Definition CR : ascii := "013"%char.
Definition LF : ascii := "010"%char.
Definition newline : string := String CR (String LF EmptyString).

(** An object, as the list of its own enumerable properties in creation
    order: what [Object.keys] walks. *)
Definition object : Type := list (string * cell).

(** [Object.keys(obj)]. *)
Definition keys (obj : object) : list string := map fst obj.

(** [obj[key]]: [undefined] when the object has no such property. *)
Definition get (key : string) (obj : object) : cell :=
  match find (fun kv => String.eqb (fst kv) key) obj with
  | Some kv => snd kv
  | None => CellUndefined
  end.

(** [Papa.BAD_DELIMITERS] among the characters of a field: carriage return,
    line feed and the double quote. The byte order mark, the fourth of them,
    is no character of the strings here. *)
Definition isBadDelimiter (c : ascii) : bool :=
  Ascii.eqb c CR || Ascii.eqb c LF || Ascii.eqb c quoteChar.

(** [str.indexOf(c) > -1] for some [c] that satisfies [P]. *)
Fixpoint hasAny (P : ascii -> bool) (s : string) : bool :=
  match s with
  | EmptyString => false
  | String c s' => P c || hasAny P s'
  end.

(** [str.replace(quoteCharRegex, escapedQuote)]: every quote is doubled. *)
Fixpoint escapeQuotes (s : string) : string :=
  match s with
  | EmptyString => EmptyString
  | String c s' =>
      if Ascii.eqb c quoteChar then String c (String c (escapeQuotes s'))
      else String c (escapeQuotes s')
  end.

(** [str.charAt(0) === c]. *)
Definition firstIs (c : ascii) (s : string) : bool :=
  match s with
  | String d _ => Ascii.eqb d c
  | EmptyString => false
  end.

(** [str.charAt(str.length - 1) === c]. *)
Fixpoint lastIs (c : ascii) (s : string) : bool :=
  match s with
  | EmptyString => false
  | String d EmptyString => Ascii.eqb d c
  | String _ s' => lastIs c s'
  end.

(** [str.toString()] on the values a row object holds; nothing for
    [undefined], which [safe] returns before it converts. *)
Definition toString (c : cell) : option string :=
  match c with
  | CellString s => Some s
  | CellNumber x => Some (Number_toString x)
  | CellUndefined => None
  end.

(** [safe(str, col)]: [undefined] is the empty field; otherwise the quotes
    of the text are doubled, and the text is put between quotes when it holds
    a quote, a line break or the delimiter, or starts or ends with a space. *)
Definition safe (c : cell) : string :=
  match toString c with
  | None => EmptyString
  | Some str =>
      let escaped := escapeQuotes str in
      let needsQuotes :=
        hasAny isBadDelimiter escaped
        || hasAny (Ascii.eqb delimiter) escaped
        || firstIs " " escaped
        || lastIs " " escaped in
      if needsQuotes
      then String quoteChar (escaped ++ String quoteChar EmptyString)
      else escaped
  end.

(** [serialize(fields, data)] on data that is an array of objects: when
    there are fields, a header row of the field names, a line break if there
    is data, and for each object the values under the field names in order,
    rows separated by line breaks. An object with no key of its own gives an
    empty line, written without delimiters. With no field no header is
    written and every row is empty. *)
Definition serialize (fields : list string) (data : list object) : string :=
  let hasHeader := match fields with [] => false | _ :: _ => true end in
  let header :=
    if hasHeader
    then String.concat (String delimiter EmptyString)
           (map (fun f => safe (CellString f)) fields)
         ++ match data with [] => EmptyString | _ :: _ => newline end
    else EmptyString in
  let row (obj : object) : string :=
    if hasHeader
    then match keys obj with
         | [] => String.concat EmptyString (map (fun f => safe (get f obj)) fields)
         | _ :: _ =>
             String.concat (String delimiter EmptyString)
               (map (fun f => safe (get f obj)) fields)
         end
    else EmptyString in
  header ++ String.concat newline (map row data).

(** [unparse(input)] on an array: nothing is written for the empty array
    ([!_input.length] gives [serialize(null, _input)]); otherwise the fields
    are the keys of the first object. *)
Definition unparse (input : list object) : string :=
  match input with
  | [] => serialize [] input
  | first :: _ => serialize (keys first) input
  end.

End Papa.

Record Blob : Type := {
  blobText : string;
  blobType : string
}.

Record Download : Type := {
  downloadBlob : Blob;
  downloadName : string
}.

(** [handleExport], lines 38 to 42: the file handed to [saveAs]. *)
Definition handleExport (rows : list TableDataType) : Download :=
  let csv := Papa.unparse (map properties rows) in
  let blob := {| blobText := csv; blobType := "text/csv;charset=utf-8;" |} in
  {| downloadBlob := blob; downloadName := "workforce-dashboard.csv" |}.

(** ** Fixtures *)

Definition noUtilisation : WorkforceUtilisation :=
  {| utilisationRateLastTwelveMonths := None;
     utilisationRateYearToDate := None;
     monthlyCostDifference := None;
     lastThreeMonthsIndividually := None |}.

Definition mayTwice : WorkforceUtilisation :=
  {| utilisationRateLastTwelveMonths := None;
     utilisationRateYearToDate := None;
     monthlyCostDifference := None;
     lastThreeMonthsIndividually :=
       Some [ {| month := "May"; utilisationRate := "0.5" |};
              {| month := "May"; utilisationRate := "0.9" |} ] |}.

Definition ana : PersonBlock :=
  {| status := "active"; jobType := "internal"; firstname := "Ana";
     lastname := None;
     workforceUtilisation :=
       Some {| utilisationRateLastTwelveMonths := Some "0.8";
               utilisationRateYearToDate := None;
               monthlyCostDifference := None;
               lastThreeMonthsIndividually :=
                 Some [ {| month := "May"; utilisationRate := "0.33" |} ] |} |}.

Definition jo : PersonBlock :=
  {| status := "active"; jobType := "external"; firstname := "Jo";
     lastname := Some "Lin"; workforceUtilisation := Some mayTwice |}.

Definition bob : PersonBlock :=
  {| status := "inactive"; jobType := "internal"; firstname := "Bob";
     lastname := Some "Ray";
     workforceUtilisation :=
       Some {| utilisationRateLastTwelveMonths := Some "12.5";
               utilisationRateYearToDate := Some "0.42";
               monthlyCostDifference := Some "abc";
               lastThreeMonthsIndividually := Some [] |} |}.

Definition eve : PersonBlock :=
  {| status := "active"; jobType := "internal"; firstname := "Eve";
     lastname := Some "Moss";
     workforceUtilisation :=
       Some {| utilisationRateLastTwelveMonths := Some "0.42";
               utilisationRateYearToDate := None;
               monthlyCostDifference := Some "abc";
               lastThreeMonthsIndividually := None |} |}.

Definition anaRecord : SourceDataType := {| employees := Some ana; externals := None |}.
Definition joRecord : SourceDataType := {| employees := None; externals := Some jo |}.
Definition bobRecord : SourceDataType := {| employees := Some bob; externals := None |}.
Definition bobJoRecord : SourceDataType := {| employees := Some bob; externals := Some jo |}.
Definition eveRecord : SourceDataType := {| employees := Some eve; externals := None |}.
Definition emptyRecord : SourceDataType := {| employees := None; externals := None |}.

(** ** Vocabulary of the specification *)

(** The block is present and its status is ["active"]. *)
Definition hasActiveStatus (block : option PersonBlock) : Prop :=
  exists p, block = Some p /\ status p = "active".

Definition isSelected (row : SourceDataType) : Prop :=
  hasActiveStatus (employees row) \/ hasActiveStatus (externals row).

(** The block is absent, or present with another status. *)
Definition inactiveOrAbsent (block : option PersonBlock) : Prop :=
  block = None \/ exists p, block = Some p /\ status p <> "active".

(** Both blocks are absent, or neither present block is active. *)
Definition noActiveBlock (row : SourceDataType) : Prop :=
  inactiveOrAbsent (employees row) /\ inactiveOrAbsent (externals row).

(** [selection l kept]: [kept] holds, in the order of [l], the records of
    [l] that are selected, and no other. *)
Inductive selection : list SourceDataType -> list SourceDataType -> Prop :=
  | selection_nil : selection [] []
  | selection_keep row l kept :
      isSelected row -> selection l kept -> selection (row :: l) (row :: kept)
  | selection_drop row l kept :
      ~ isSelected row -> selection l kept -> selection (row :: l) kept.

(** The display name of a person block. *)
Definition personName (p : PersonBlock) : string :=
  (if String.eqb (jobType p) "external" then "External " else "")
  ++ firstname p ++ " " ++ coalesce (lastname p) "".

(** The Row derived from one person block. *)
Definition rowOf (p : PersonBlock) : TableDataType :=
  let util := workforceUtilisation p in
  {| person := personName p;
     past12Months := parseUtil (chainOpt util utilisationRateLastTwelveMonths);
     y2d := parseUtil (chainOpt util utilisationRateYearToDate);
     may := getMonthUtil util "May";
     june := getMonthUtil util "June";
     july := getMonthUtil util "July";
     netEarningsPrevMonth :=
       match chainOpt util monthlyCostDifference with
       | Some s => parseFloat s
       | None => zero
       end |}.

(** [firstMatch name entries r]: [r] is the first entry of [entries] whose
    month is [name], or [None] when no entry has that month. *)
Inductive firstMatch (name : string) : list MonthEntry -> option MonthEntry -> Prop :=
  | firstMatch_none entries :
      Forall (fun m => month m <> name) entries ->
      firstMatch name entries None
  | firstMatch_some before e after :
      Forall (fun m => month m <> name) before ->
      month e = name ->
      firstMatch name (before ++ e :: after)%list (Some e).

(** A string of decimal digits and its value. *)
Definition isDigit (c : ascii) : bool :=
  match digitValue c with
  | Some _ => true
  | None => false
  end.

Fixpoint allDigits (s : string) : bool :=
  match s with
  | EmptyString => true
  | String c r => isDigit c && allDigits r
  end.

Fixpoint decimalValueFrom (acc : N) (s : string) : N :=
  match s with
  | EmptyString => acc
  | String c r => decimalValueFrom (10 * acc + coalesce (digitValue c) 0)%N r
  end.

Definition decimalValue (s : string) : N := decimalValueFrom 0 s.

Definition headIsDigit (s : string) : bool :=
  match s with
  | String c _ => isDigit c
  | EmptyString => false
  end.

(** [u] starts with [Infinity], with a digit, or with a dot and a digit. *)
Definition startsLiteral (u : string) : bool :=
  String.prefix "Infinity" u
  || headIsDigit u
  || match afterChar "." u with
     | Some r => headIsDigit r
     | None => false
     end.

(** After leading white space and one optional sign, [s] starts a numeric
    literal. *)
Definition hasNumericPrefix (s : string) : bool :=
  startsLiteral (snd (scanSign (trimStart s))).

(** Every character of [s] satisfies [P]. *)
Fixpoint allChars (P : ascii -> bool) (s : string) : bool :=
  match s with
  | EmptyString => true
  | String c r => P c && allChars P r
  end.

(** The characters [Number::toString] writes. *)
Definition numberChar (c : ascii) : bool :=
  isDigit c
  || existsb (Ascii.eqb c) (list_ascii_of_string ".e+-NaIfinty").

(** A numeric field of the export: the raw value, or nothing. *)
Definition rawField (v : option number) : string :=
  match v with
  | Some x => Number_toString x
  | None => EmptyString
  end.

(** ** The rest of the component *)

(** The colour of the net earnings cell, line 147:
    [value >= 0 ? "green" : "red"]. *)
Definition earningsColor (value : number) : string :=
  if SFleb zero value then "green" else "red".

(** What can happen to the mounted component: the timer set by the effect
    fires and runs [loadData] (line 81), or the export button is clicked
    (lines 168 to 182). *)
Inductive event : Type :=
  | TimerFires
  | ExportClicked.

(** One event on the component state, with the files it hands to [saveAs].
    The button is [disabled] while [loading] (line 179), so a click does
    nothing then; otherwise [onClick] runs [handleExport(tableData)]. *)
Definition handleEvent (sourceData : list SourceDataType) (st : AppState) (ev : event)
  : completion (AppState * list Download) :=
  match ev with
  | TimerFires =>
      st' <- loadData sourceData st ;;
      Normal (st', [])
  | ExportClicked =>
      if loading st then Normal (st, [])
      else Normal (st, [handleExport (tableData st)])
  end.

(** A sequence of events, with the files saved along the way in order. *)
Fixpoint handleEvents (sourceData : list SourceDataType) (st : AppState) (evs : list event)
  : completion (AppState * list Download) :=
  match evs with
  | [] => Normal (st, [])
  | ev :: evs' =>
      r <- handleEvent sourceData st ev ;;
      r' <- handleEvents sourceData (fst r) evs' ;;
      Normal (fst r', (snd r ++ snd r')%list)
  end.

(** ** More vocabulary *)

Definition isNaN (x : number) : bool :=
  match x with
  | S754_nan => true
  | _ => false
  end.

Definition isZero (x : number) : bool :=
  match x with
  | S754_zero _ => true
  | _ => false
  end.

Definition headIsExponent (s : string) : bool :=
  match s with
  | String c _ => isExponentIndicator c
  | EmptyString => false
  end.

Definition headIsDot (s : string) : bool :=
  match afterChar "." s with
  | Some _ => true
  | None => false
  end.

(** [s] starts with white space or with a sign. *)
Definition headIsSpaceOrSign (s : string) : bool :=
  match s with
  | String c _ => isWhiteSpace c || Ascii.eqb c "-" || Ascii.eqb c "+"
  | EmptyString => false
  end.

(** The numeral of [n] hundredths with two decimals: [7] is ["0.07"] and
    [125] is ["1.25"]. *)
Definition twoDecimals (n : nat) : string :=
  let z := Z.of_nat n in
  decimalString (z / 100) ++ "."
  ++ (if (z mod 100 <? 10)%Z then "0" else "") ++ decimalString (z mod 100).

(** Month fixtures: June before two entries for May, and the two orders of
    one entry for May and one for June. *)
Definition may5 : MonthEntry := {| month := "May"; utilisationRate := "0.5" |}.
Definition may9 : MonthEntry := {| month := "May"; utilisationRate := "0.9" |}.
Definition june7 : MonthEntry := {| month := "June"; utilisationRate := "0.7" |}.

Definition withMonths (entries : list MonthEntry) : WorkforceUtilisation :=
  {| utilisationRateLastTwelveMonths := None;
     utilisationRateYearToDate := None;
     monthlyCostDifference := None;
     lastThreeMonthsIndividually := Some entries |}.

(** The month names of [entries], in order. *)
Definition months (entries : list MonthEntry) : list string := map month entries.

(** *** Numbers and the text written for them *)

(** [x] is a Number: a value of the binary64 format, with its significand
    in canonical form. The parser and the literals build no other. *)
Definition isNumber (x : number) : bool := valid_binary prec emax x.

(** SameValueZero, ECMA-262, 7.2.11: NaN is itself, and the two zeros are
    the same. *)
Definition sameValueZero (a b : number) : bool :=
  match a, b with
  | S754_nan, S754_nan => true
  | _, _ => SFeqb a b
  end.

(** The value [n / d] is exactly [m * 2^e]. *)
Definition exactly (n d m : positive) (e : Z) : Prop :=
  (Zpos n * 2 ^ Z.max 0 (- e) = Zpos m * 2 ^ Z.max 0 e * Zpos d)%Z.

(** The decimal [s * 10^E] is exactly [m * 2^e]. *)
Definition decimalIs (s E : Z) (m : positive) (e : Z) : Prop :=
  (s * 10 ^ Z.max 0 E * 2 ^ Z.max 0 (- e)
   = Zpos m * 2 ^ Z.max 0 e * 10 ^ Z.max 0 (- E))%Z.

(** The numeral [t] starts with a digit and is read as a decimal that
    rounds like [v * 10^E]. *)
Definition readsAs (t : string) (v : N) (E : Z) : Prop :=
  headIsDigit t = true
  /\ exists m E',
       strUnsignedDecimalLiteral t = Some (LitDecimal m E')
       /\ forall s, roundDecimal s m E' = roundDecimal s v E.

(** The text [t] is what the export writes for the numeric field [v]:
    nothing for [undefined]; for a Number a plain numeral, made of the
    characters of numerals only, that [parseFloat] reads back as that very
    Number, and that is not the text of the percentage cell. *)
Definition writes (v : option number) (t : string) : Prop :=
  match v with
  | None => t = EmptyString
  | Some x =>
      allChars numberChar t = true
      /\ sameValueZero (parseFloat t) x = true
      /\ String.eqb t (percentCell v) = false
  end.

(** The line of the export for the Row [r]: seven fields separated by
    commas, the last six written for the six numeric fields of the Row in
    header order. *)
Definition exportsRow (r : TableDataType) (line : string) : Prop :=
  exists p f1 f2 f3 f4 f5 f6,
    line = p ++ "," ++ f1 ++ "," ++ f2 ++ "," ++ f3 ++ "," ++ f4
             ++ "," ++ f5 ++ "," ++ f6
    /\ writes (past12Months r) f1
    /\ writes (y2d r) f2
    /\ writes (may r) f3
    /\ writes (june r) f4
    /\ writes (july r) f5
    /\ writes (Some (netEarningsPrevMonth r)) f6.

Definition isNumberOpt (v : option number) : bool :=
  match v with
  | Some x => isNumber x
  | None => true
  end.

(** Every numeric field of the Row holds a Number or [undefined]. *)
Definition wellFormedRow (r : TableDataType) : bool :=
  isNumberOpt (past12Months r) && isNumberOpt (y2d r) && isNumberOpt (may r)
  && isNumberOpt (june r) && isNumberOpt (july r)
  && isNumber (netEarningsPrevMonth r).

(** The header of the export. *)
Definition headerRow : string :=
  "person,past12Months,y2d,may,june,july,netEarningsPrevMonth".

(** The line break between the rows of the export: CR LF. *)
Definition CRLF : string := String "013" (String "010" EmptyString).

(** *** Proof steps *)

(** Evaluates the value of the digit under the goal's scanner. *)
Ltac digit_value :=
  match goal with
  | |- context [coalesce (digitValue ?c) 0%N] =>
      let v := eval vm_compute in (coalesce (digitValue c) 0%N) in
      change (coalesce (digitValue c) 0%N) with v
  end.

(** Linear arithmetic on [fexp] at the parameters of binary64. *)
Ltac fexp_lia :=
  unfold fexp, SpecFloat.emin in *;
  change prec with 53%Z in *; change emax with 1024%Z in *; lia.

(** ** Strings *)

Lemma string_app_nil_r (s : string) : s ++ "" = s.
Proof.
  induction s as [|c s IH]; cbn [append]; [reflexivity | rewrite IH; reflexivity].
Qed.

Lemma allChars_app (P : ascii -> bool) (a b : string) :
  allChars P (a ++ b) = allChars P a && allChars P b.
Proof.
  induction a as [|c a IH]; cbn [append allChars]; [reflexivity|].
  rewrite IH. apply andb_assoc.
Qed.

Lemma allChars_substring (P : ascii -> bool) (s : string) :
  forall n m, allChars P s = true -> allChars P (substring n m s) = true.
Proof.
  induction s as [|c s IH]; intros n m H.
  - destruct n, m; reflexivity.
  - cbn [allChars] in H. apply andb_true_iff in H. destruct H as [Hc Hs].
    destruct n as [|n]; [destruct m as [|m]|]; cbn [substring allChars].
    + reflexivity.
    + rewrite Hc. apply IH, Hs.
    + apply IH, Hs.
Qed.

Lemma allChars_weaken (P Q : ascii -> bool) (s : string) :
  (forall c, P c = true -> Q c = true) ->
  allChars P s = true -> allChars Q s = true.
Proof.
  intros HPQ. induction s as [|c s IH]; cbn [allChars]; [reflexivity|].
  intros H. apply andb_true_iff in H. destruct H as [Hc Hs].
  rewrite (HPQ c Hc). apply IH, Hs.
Qed.

Lemma allChars_zeros (n : nat) : allChars numberChar (zeros n) = true.
Proof.
  induction n as [|n IH]; cbn [zeros allChars]; [reflexivity|].
  rewrite IH. reflexivity.
Qed.

Lemma allChars_string_of_uint (u : Decimal.uint) :
  allChars numberChar (NilEmpty.string_of_uint u) = true.
Proof.
  induction u as [|u IH|u IH|u IH|u IH|u IH|u IH|u IH|u IH|u IH|u IH];
    cbn [NilEmpty.string_of_uint allChars]; try reflexivity;
    rewrite IH; reflexivity.
Qed.

Lemma allChars_decimalString (z : Z) : allChars numberChar (decimalString z) = true.
Proof.
  apply allChars_string_of_uint.
Qed.

Lemma allChars_layout (ds : string) (k n : Z) :
  allChars numberChar ds = true -> allChars numberChar (layout ds k n) = true.
Proof.
  intros H. unfold layout.
  destruct ((k <=? n)%Z && (n <=? 21)%Z).
  { rewrite allChars_app, H, allChars_zeros. reflexivity. }
  destruct ((0 <? n)%Z && (n <=? 21)%Z).
  { rewrite !allChars_app, !allChars_substring by exact H. reflexivity. }
  destruct ((-6 <? n)%Z && (n <=? 0)%Z).
  { rewrite !allChars_app, H, allChars_zeros. reflexivity. }
  rewrite !allChars_app, allChars_decimalString.
  assert (Hm : allChars numberChar
                 (if (k =? 1)%Z then ds
                  else substring 0 1 ds ++ "." ++ substring 1 (Z.to_nat (k - 1)) ds)
               = true).
  { destruct (k =? 1)%Z; [exact H|].
    rewrite !allChars_app, !allChars_substring by exact H. reflexivity. }
  rewrite Hm. destruct (n - 1 <? 0)%Z; reflexivity.
Qed.

(** [Number::toString] writes digits, a dot, an exponent mark, signs and
    the letters of [NaN] and [Infinity], and nothing else. *)
Lemma allChars_Number_toString (x : number) :
  allChars numberChar (Number_toString x) = true.
Proof.
  destruct x as [s|s| |s m e]; cbn [Number_toString].
  - reflexivity.
  - destruct s; reflexivity.
  - reflexivity.
  - destruct (fraction m e) as [a b].
    destruct (shortest _ _ a b (decimalExponent a b) 1) as [d E].
    rewrite allChars_app, allChars_layout by apply allChars_decimalString.
    destruct s; reflexivity.
Qed.

(** ** [parseFloat] *)

Lemma scanDigits_count (s : string) :
  forall acc cnt, (cnt <= snd (fst (scanDigits acc cnt s)))%N.
Proof.
  induction s as [|c s IH]; intros acc cnt; cbn [scanDigits].
  - cbn [fst snd]. lia.
  - destruct (digitValue c) as [d|]; [|cbn [fst snd]; lia].
    specialize (IH (10 * acc + d)%N (cnt + 1)%N). lia.
Qed.

Lemma scanDigits_no_digit (s : string) (acc cnt : N) :
  headIsDigit s = false -> scanDigits acc cnt s = (acc, cnt, s).
Proof.
  destruct s as [|c r]; simpl; [reflexivity|].
  unfold isDigit. destruct (digitValue c); [discriminate | reflexivity].
Qed.

Lemma scanDigits_head_digit (s : string) (acc : N) :
  headIsDigit s = true -> snd (fst (scanDigits acc 0 s)) <> 0%N.
Proof.
  destruct s as [|c r]; cbn [headIsDigit scanDigits]; [discriminate|].
  unfold isDigit. destruct (digitValue c) as [d|]; [|discriminate].
  intros _. pose proof (scanDigits_count r (10 * acc + d) (0 + 1)) as H. lia.
Qed.

Lemma scanDigits_allDigits (ds rest : string) :
  forall acc cnt,
    allDigits ds = true -> headIsDigit rest = false ->
    scanDigits acc cnt (ds ++ rest)
    = (decimalValueFrom acc ds, (cnt + N.of_nat (String.length ds))%N, rest).
Proof.
  induction ds as [|c ds IH]; intros acc cnt Hd Hr.
  - cbn [append decimalValueFrom String.length N.of_nat].
    rewrite N.add_0_r. apply scanDigits_no_digit, Hr.
  - cbn [allDigits] in Hd. apply andb_true_iff in Hd. destruct Hd as [Hc Hd].
    cbn [append scanDigits decimalValueFrom String.length].
    unfold isDigit in Hc. destruct (digitValue c) as [d|]; [|discriminate].
    rewrite (IH _ _ Hd Hr). cbn [coalesce]. f_equal. f_equal. lia.
Qed.

Lemma decimalValueFrom_app (a b : string) :
  forall acc, decimalValueFrom acc (a ++ b) = decimalValueFrom (decimalValueFrom acc a) b.
Proof.
  induction a as [|c a IH]; intros acc; cbn [append decimalValueFrom];
    [reflexivity | apply IH].
Qed.

Lemma strUnsignedDecimalLiteral_none (u : string) :
  startsLiteral u = false -> strUnsignedDecimalLiteral u = None.
Proof.
  unfold startsLiteral, strUnsignedDecimalLiteral. intros H.
  apply orb_false_iff in H. destruct H as [H Hdot].
  apply orb_false_iff in H. destruct H as [Hinf Hhead].
  rewrite Hinf, (scanDigits_no_digit u 0 0 Hhead).
  destruct (afterChar "." u) as [r|]; [|reflexivity].
  rewrite (scanDigits_no_digit r 0 0 Hdot). reflexivity.
Qed.

Lemma strUnsignedDecimalLiteral_some (u : string) :
  startsLiteral u = true -> strUnsignedDecimalLiteral u <> None.
Proof.
  unfold startsLiteral, strUnsignedDecimalLiteral. intros H.
  destruct (String.prefix "Infinity" u); [discriminate|]. simpl in H.
  destruct (scanDigits 0 0 u) as [[ip ni] r1] eqn:E.
  destruct (headIsDigit u) eqn:Hhead; simpl in H.
  - pose proof (scanDigits_head_digit u 0 Hhead) as Hn. rewrite E in Hn.
    simpl in Hn. apply N.eqb_neq in Hn. rewrite Hn. simpl.
    destruct (afterChar "." r1) as [r2|]; [|discriminate].
    destruct (scanDigits ip 0 r2) as [[m nf] r3]. discriminate.
  - rewrite (scanDigits_no_digit u 0 0 Hhead) in E. injection E as <- <- <-.
    destruct (afterChar "." u) as [r2|]; [|discriminate].
    pose proof (scanDigits_head_digit r2 0 H) as Hn.
    destruct (scanDigits 0 0 r2) as [[m nf] r3]. simpl in Hn.
    apply N.eqb_neq in Hn. rewrite Hn. discriminate.
Qed.

(** The rounding of [SpecFloat] never yields NaN on a mantissa that is not
    negative. *)
Lemma shr_1_nonneg (mrs : shr_record) :
  (0 <= shr_m mrs)%Z -> (0 <= shr_m (shr_1 mrs))%Z.
Proof.
  destruct mrs as [m r t]. simpl. intros H.
  destruct m as [|[q|q|]|q]; simpl; lia.
Qed.

Lemma iter_pos_shr_1_nonneg (p : positive) :
  forall mrs, (0 <= shr_m mrs)%Z -> (0 <= shr_m (iter_pos shr_1 p mrs))%Z.
Proof.
  induction p as [p IH|p IH|]; intros mrs H; simpl.
  - apply IH, IH, shr_1_nonneg, H.
  - apply IH, IH, H.
  - apply shr_1_nonneg, H.
Qed.

Lemma shr_fexp_nonneg (m e : Z) (l : location) :
  (0 <= m)%Z -> (0 <= shr_m (fst (shr_fexp prec emax m e l)))%Z.
Proof.
  intros H. unfold shr_fexp, shr.
  assert (H0 : (0 <= shr_m (shr_record_of_loc m l))%Z)
    by (destruct l as [|[]]; exact H).
  destruct (fexp prec emax (Zdigits2 m + e) - e)%Z; simpl; try exact H0.
  apply iter_pos_shr_1_nonneg, H0.
Qed.

Lemma binary_round_aux_not_nan (s : bool) (m e : Z) (l : location) :
  (0 <= m)%Z -> binary_round_aux prec emax s m e l <> S754_nan.
Proof.
  intros H. unfold binary_round_aux.
  pose proof (shr_fexp_nonneg m e l H) as H1.
  destruct (shr_fexp prec emax m e l) as [mrs' e']. simpl in H1.
  assert (H2 : (0 <= round_nearest_even (shr_m mrs') (loc_of_shr_record mrs'))%Z).
  { unfold round_nearest_even.
    destruct (loc_of_shr_record mrs') as [|[]]; try lia.
    destruct (Z.even (shr_m mrs')); lia. }
  pose proof (shr_fexp_nonneg _ e' loc_Exact H2) as H3.
  destruct (shr_fexp prec emax _ e' loc_Exact) as [mrs'' e'']. simpl in H3.
  destruct (shr_m mrs'') as [|q|q]; try discriminate; try lia.
  destruct (e'' <=? emax - prec)%Z; discriminate.
Qed.

Lemma roundRatio_not_nan (s : bool) (n d : positive) : roundRatio s n d <> NaN.
Proof.
  unfold roundRatio.
  set (sh := Z.max 0 (Zdigits2 (Zpos d) - Zdigits2 (Zpos n) + 55)%Z).
  pose proof (Z.div_pos (Z.shiftl (Zpos n) sh) (Zpos d)) as Hq.
  unfold Z.div in Hq.
  destruct (Z.div_eucl (Z.shiftl (Zpos n) sh) (Zpos d)) as [q r].
  apply binary_round_aux_not_nan. simpl in Hq. apply Hq; [|lia].
  apply Z.shiftl_nonneg. lia.
Qed.

Lemma roundDecimal_not_nan (s : bool) (m : N) (e : Z) : roundDecimal s m e <> NaN.
Proof.
  unfold roundDecimal. destruct m as [|p]; [discriminate|].
  destruct e; apply roundRatio_not_nan.
Qed.

(** [parseFloat] answers NaN exactly on the strings with no numeric prefix. *)
Lemma parseFloat_nan_iff (s : string) :
  parseFloat s = NaN <-> hasNumericPrefix s = false.
Proof.
  unfold parseFloat, hasNumericPrefix.
  destruct (scanSign (trimStart s)) as [negative u]. simpl.
  destruct (startsLiteral u) eqn:E.
  - pose proof (strUnsignedDecimalLiteral_some u E) as H.
    destruct (strUnsignedDecimalLiteral u) as [[|m e]|]; try congruence.
    + split; discriminate.
    + split; [|discriminate]. intros Hn. exfalso.
      exact (roundDecimal_not_nan _ _ _ Hn).
  - rewrite (strUnsignedDecimalLiteral_none u E). split; reflexivity.
Qed.

Lemma isDigit_plain (c : ascii) :
  isDigit c = true ->
  isWhiteSpace c = false /\ Ascii.eqb c "-" = false /\ Ascii.eqb c "+" = false
  /\ Ascii.eqb c "I" = false /\ Ascii.eqb c "." = false.
Proof.
  destruct c as [[] [] [] [] [] [] [] []]; intros H;
    try discriminate H; repeat split; reflexivity.
Qed.

(** A decimal numeral [ip.fp] is read in full and denotes its value. *)
Lemma parseFloat_decimal (ip fp : string) :
  allDigits ip = true -> (0 < String.length ip)%nat -> allDigits fp = true ->
  parseFloat (ip ++ "." ++ fp)
  = roundDecimal false (decimalValue (ip ++ fp)) (- Z.of_nat (String.length fp)).
Proof.
  intros Hip Hne Hfp.
  destruct ip as [|c ip']; [simpl in Hne; lia|].
  pose proof Hip as Hc. simpl in Hc. apply andb_true_iff in Hc.
  destruct Hc as [Hc _].
  destruct (isDigit_plain c Hc) as [Hw [Hm [Hp [Hi Hd]]]].
  unfold parseFloat.
  assert (Ht : trimStart (String c ip' ++ "." ++ fp) = String c ip' ++ "." ++ fp)
    by (simpl; rewrite Hw; reflexivity).
  rewrite Ht.
  assert (Hs : scanSign (String c ip' ++ "." ++ fp) = (false, String c ip' ++ "." ++ fp))
    by (unfold scanSign; simpl; rewrite Hm, Hp; reflexivity).
  rewrite Hs. unfold strUnsignedDecimalLiteral.
  assert (Hinf : String.prefix "Infinity" (String c ip' ++ "." ++ fp) = false).
  { cbn [append String.prefix].
    destruct (ascii_dec "I"%char c) as [<-|_]; [discriminate Hi | reflexivity]. }
  rewrite Hinf.
  rewrite (scanDigits_allDigits (String c ip') ("." ++ fp) 0 0 Hip eq_refl).
  simpl afterChar.
  rewrite <- (string_app_nil_r fp) at 1.
  rewrite (scanDigits_allDigits fp "" _ 0 Hfp eq_refl).
  assert (Hn : ((0 + N.of_nat (String.length (String c ip')) =? 0)%N = false))
    by (apply N.eqb_neq; simpl String.length; lia).
  rewrite Hn. simpl andb. simpl scanExponent.
  unfold decimalValue. rewrite decimalValueFrom_app.
  f_equal. lia.
Qed.

(** ** The selection filter *)

Lemma strictEq_status_active (block : option PersonBlock) :
  strictEq (chain block status) "active" = true <-> hasActiveStatus block.
Proof.
  unfold hasActiveStatus. destruct block as [p|]; simpl.
  - rewrite String.eqb_eq. split.
    + intros H. exists p. auto.
    + intros [q [Hq Hs]]. injection Hq as ->. exact Hs.
  - split; [discriminate | intros [q [Hq _]]; discriminate].
Qed.

Lemma loadData_filter_spec (row : SourceDataType) :
  loadData_filter row = true <-> isSelected row.
Proof.
  unfold loadData_filter, isSelected.
  rewrite orb_true_iff, !strictEq_status_active. reflexivity.
Qed.

Lemma loadData_filter_false (row : SourceDataType) :
  loadData_filter row = false <-> ~ isSelected row.
Proof.
  rewrite <- loadData_filter_spec.
  destruct (loadData_filter row); split; intros H; congruence.
Qed.

Lemma strictEq_status_inactive (block : option PersonBlock) :
  strictEq (chain block status) "active" = false <-> inactiveOrAbsent block.
Proof.
  unfold inactiveOrAbsent. destruct block as [p|]; cbn [chain strictEq].
  - rewrite String.eqb_neq. split.
    + intros H. right. exists p. auto.
    + intros [H|[q [Hq Hs]]]; [discriminate | injection Hq as ->; exact Hs].
  - split; [intros _; left; reflexivity | reflexivity].
Qed.

Lemma loadData_filter_noActiveBlock (row : SourceDataType) :
  loadData_filter row = false <-> noActiveBlock row.
Proof.
  unfold loadData_filter, noActiveBlock.
  rewrite orb_false_iff, !strictEq_status_inactive. reflexivity.
Qed.

Lemma data_dropped (row : SourceDataType) (l : list SourceDataType) :
  loadData_filter row = false -> data (row :: l) = data l.
Proof.
  intros H. unfold data. cbn [filter]. rewrite H. reflexivity.
Qed.

Lemma filter_selection (l : list SourceDataType) :
  selection l (filter loadData_filter l).
Proof.
  induction l as [|row l IH]; simpl.
  - constructor.
  - destruct (loadData_filter row) eqn:E.
    + apply selection_keep; [apply loadData_filter_spec, E | exact IH].
    + apply selection_drop; [apply loadData_filter_false, E | exact IH].
Qed.

(** A selected record has a person block to build the Row from. *)
Lemma selected_block (row : SourceDataType) :
  loadData_filter row = true ->
  exists p, coalesceOpt (employees row) (externals row) = Some p.
Proof.
  intros H. apply loadData_filter_spec in H.
  destruct H as [[p [Hp _]]|[p [Hp _]]].
  - exists p. rewrite Hp. reflexivity.
  - destruct (employees row) as [e|].
    + exists e. reflexivity.
    + exists p. exact Hp.
Qed.

(** ** The map callback *)

Lemma loadData_map_block (row : SourceDataType) (p : PersonBlock) :
  coalesceOpt (employees row) (externals row) = Some p ->
  loadData_map row = Normal (rowOf p).
Proof.
  intros H. unfold loadData_map. rewrite H. simpl.
  unfold rowOf, personName.
  destruct (String.eqb (jobType p) "external"); simpl;
    destruct (chainOpt (workforceUtilisation p) monthlyCostDifference);
    reflexivity.
Qed.

Lemma loadData_map_no_block (row : SourceDataType) :
  employees row = None -> externals row = None ->
  loadData_map row = Throw TypeError.
Proof.
  intros He Hx. unfold loadData_map. rewrite He, Hx. reflexivity.
Qed.

Lemma loadData_map_selected (row : SourceDataType) :
  loadData_filter row = true -> exists out, loadData_map row = Normal out.
Proof.
  intros H. destruct (selected_block row H) as [p Hp].
  exists (rowOf p). apply loadData_map_block, Hp.
Qed.

(** ** The whole pass *)

Lemma Array_map_app {A B : Type} (f : A -> completion B) (l1 l2 : list A) :
  Array_map f (l1 ++ l2)%list =
  (r1 <- Array_map f l1 ;; r2 <- Array_map f l2 ;; Normal (r1 ++ r2)%list).
Proof.
  induction l1 as [|x l1 IH]; simpl.
  - destruct (Array_map f l2); reflexivity.
  - destruct (f x) as [y|e]; simpl; [|reflexivity].
    rewrite IH. destruct (Array_map f l1) as [r1|e]; simpl; [|reflexivity].
    destruct (Array_map f l2); reflexivity.
Qed.

Lemma Array_map_Forall2 {A B : Type} (f : A -> completion B) (l : list A) :
  Forall (fun x => exists y, f x = Normal y) l ->
  exists r, Array_map f l = Normal r /\ Forall2 (fun x y => f x = Normal y) l r.
Proof.
  induction 1 as [|x l [y Hy] _ [r [Hr HF]]]; simpl.
  - exists []. split; [reflexivity | constructor].
  - exists (y :: r). rewrite Hy, Hr. simpl. split; [reflexivity|].
    constructor; assumption.
Qed.

Lemma data_rows (sourceData : list SourceDataType) :
  exists rows,
    data sourceData = Normal rows
    /\ Forall2 (fun row out => loadData_map row = Normal out)
         (filter loadData_filter sourceData) rows.
Proof.
  apply Array_map_Forall2. apply Forall_forall.
  intros row Hin. apply filter_In in Hin.
  apply loadData_map_selected, Hin.
Qed.

Lemma data_total (sourceData : list SourceDataType) :
  exists rows, data sourceData = Normal rows.
Proof.
  destruct (data_rows sourceData) as [rows [H _]]. exists rows. exact H.
Qed.

Lemma data_app (l1 l2 : list SourceDataType) :
  data (l1 ++ l2)%list = (r1 <- data l1 ;; r2 <- data l2 ;; Normal (r1 ++ r2)%list).
Proof.
  unfold data. rewrite filter_app. apply Array_map_app.
Qed.

Lemma data_selected (row : SourceDataType) (l : list SourceDataType) :
  loadData_filter row = true ->
  data (row :: l) = (out <- loadData_map row ;; rows <- data l ;; Normal (out :: rows)).
Proof.
  intros H. unfold data. simpl. rewrite H. reflexivity.
Qed.

(** A selected record between [l1] and [l2] contributes one Row between the
    Rows of [l1] and the Rows of [l2]. *)
Lemma data_middle (l1 l2 : list SourceDataType) (row : SourceDataType) (out : TableDataType) :
  loadData_filter row = true ->
  loadData_map row = Normal out ->
  exists rows1 rows2,
    data l1 = Normal rows1 /\ data l2 = Normal rows2
    /\ data (l1 ++ row :: l2)%list = Normal (rows1 ++ out :: rows2)%list.
Proof.
  intros Hf Hm.
  destruct (data_total l1) as [rows1 H1].
  destruct (data_total l2) as [rows2 H2].
  exists rows1, rows2. split; [exact H1|]. split; [exact H2|].
  rewrite data_app, H1, (data_selected _ _ Hf), Hm, H2. reflexivity.
Qed.

(** ** Month lookup *)

Lemma firstMatch_skip (name : string) (m : MonthEntry) (l : list MonthEntry) (r : option MonthEntry) :
  month m <> name -> firstMatch name l r -> firstMatch name (m :: l) r.
Proof.
  intros Hm H. destruct H as [entries Hall | before e after Hall He].
  - apply firstMatch_none. constructor; assumption.
  - apply (firstMatch_some name (m :: before) e after); [|exact He].
    constructor; assumption.
Qed.

Lemma find_firstMatch (name : string) (l : list MonthEntry) :
  firstMatch name l (find (fun m => String.eqb (month m) name) l).
Proof.
  induction l as [|m l IH]; cbn [find].
  - apply firstMatch_none. constructor.
  - destruct (String.eqb_spec (month m) name) as [E|E].
    + apply (firstMatch_some name [] m l); [constructor | exact E].
    + apply firstMatch_skip; assumption.
Qed.

(** ** Export *)

Lemma numberChar_plain (c : ascii) :
  numberChar c = true ->
  Papa.isBadDelimiter c = false
  /\ Ascii.eqb Papa.delimiter c = false
  /\ Ascii.eqb c Papa.quoteChar = false
  /\ Ascii.eqb c " " = false.
Proof.
  destruct c as [[] [] [] [] [] [] [] []]; cbv; intro H;
    first [discriminate H | repeat split].
Qed.

Lemma escapeQuotes_number (s : string) :
  allChars numberChar s = true -> Papa.escapeQuotes s = s.
Proof.
  induction s as [|c s IH]; cbn [allChars Papa.escapeQuotes]; [reflexivity|].
  intro H. apply andb_true_iff in H. destruct H as [Hc Hs].
  destruct (numberChar_plain c Hc) as (_ & _ & Hq & _).
  rewrite Hq, (IH Hs). reflexivity.
Qed.

Lemma hasAny_number (s : string) :
  allChars numberChar s = true ->
  Papa.hasAny Papa.isBadDelimiter s = false
  /\ Papa.hasAny (Ascii.eqb Papa.delimiter) s = false.
Proof.
  induction s as [|c s IH]; cbn [allChars Papa.hasAny]; [split; reflexivity|].
  intro H. apply andb_true_iff in H. destruct H as [Hc Hs].
  destruct (numberChar_plain c Hc) as (Hb & Hd & _ & _).
  destruct (IH Hs) as [IH1 IH2].
  rewrite Hb, Hd, IH1, IH2. split; reflexivity.
Qed.

Lemma firstIs_number (s : string) :
  allChars numberChar s = true -> Papa.firstIs " " s = false.
Proof.
  destruct s as [|c s]; cbn [allChars Papa.firstIs]; [reflexivity|].
  intro H. apply andb_true_iff in H. destruct H as [Hc _].
  apply (numberChar_plain c Hc).
Qed.

Lemma lastIs_number (s : string) :
  allChars numberChar s = true -> Papa.lastIs " " s = false.
Proof.
  induction s as [|c s IH]; [reflexivity|].
  cbn [allChars]. intro H. apply andb_true_iff in H. destruct H as [Hc Hs].
  destruct s as [|d s].
  - apply (numberChar_plain c Hc).
  - exact (IH Hs).
Qed.

(** A Number is written as its text, with no quote around it. *)
Lemma safe_Number_toString (x : number) :
  Papa.safe (CellNumber x) = Number_toString x.
Proof.
  pose proof (allChars_Number_toString x) as H.
  unfold Papa.safe. cbn [Papa.toString].
  cbv zeta. rewrite (escapeQuotes_number _ H).
  destruct (hasAny_number _ H) as [H1 H2].
  rewrite H1, H2, (firstIs_number _ H), (lastIs_number _ H). reflexivity.
Qed.

Lemma safe_optionalCell (v : option number) :
  Papa.safe (optionalCell v) = rawField v.
Proof.
  destruct v as [x|]; [apply safe_Number_toString | reflexivity].
Qed.

(** The line [serialize] writes for a Row object. *)
Lemma unparse_line (r : TableDataType) :
  String.concat (String Papa.delimiter "")
    (map (fun f => Papa.safe (Papa.get f (properties r))) (Papa.keys (properties r)))
  = Papa.safe (CellString (person r)) ++ "," ++ rawField (past12Months r)
    ++ "," ++ rawField (y2d r) ++ "," ++ rawField (may r)
    ++ "," ++ rawField (june r) ++ "," ++ rawField (july r)
    ++ "," ++ rawField (Some (netEarningsPrevMonth r)).
Proof.
  unfold properties, Papa.keys, Papa.get.
  cbn [map fst snd find String.eqb Ascii.eqb Bool.eqb String.concat].
  rewrite !safe_optionalCell, safe_Number_toString. reflexivity.
Qed.

Lemma unparse_header (r : TableDataType) :
  String.concat (String Papa.delimiter "")
    (map (fun f => Papa.safe (CellString f)) (Papa.keys (properties r)))
  = headerRow.
Proof. reflexivity. Qed.

Lemma string_app_assoc (a b c : string) : (a ++ b) ++ c = a ++ b ++ c.
Proof.
  induction a as [|x a IH]; cbn [append]; [reflexivity | rewrite IH; reflexivity].
Qed.

Lemma concat_cons (sep x : string) (l : list string) :
  l <> [] -> String.concat sep (x :: l) = x ++ sep ++ String.concat sep l.
Proof.
  destruct l as [|y l]; [congruence | reflexivity].
Qed.

(** The text written for a non-empty array of Row objects. *)
Lemma unparse_rows (r : TableDataType) (rest : list TableDataType) :
  Papa.unparse (map properties (r :: rest))
  = String.concat Papa.newline
      (headerRow
         :: map (fun r' =>
                   String.concat (String Papa.delimiter "")
                     (map (fun f => Papa.safe (Papa.get f (properties r')))
                        (Papa.keys (properties r))))
              (r :: rest)).
Proof.
  rewrite concat_cons by discriminate.
  unfold Papa.unparse. cbn [map]. unfold Papa.serialize.
  rewrite unparse_header.
  change (Papa.keys (properties r)) with
    ["person"; "past12Months"; "y2d"; "may"; "june"; "july"; "netEarningsPrevMonth"].
  cbv iota beta zeta.
  rewrite string_app_assoc. f_equal. f_equal. f_equal.
  change (properties r :: map properties rest) with (map properties (r :: rest)).
  rewrite map_map. reflexivity.
Qed.

Lemma rawField_not_percentCell (v : option number) :
  String.eqb (rawField v) (percentCell v) = false.
Proof.
  apply String.eqb_neq. destruct v as [x|]; cbn [rawField percentCell].
  - intros E. pose proof (allChars_Number_toString x) as H.
    rewrite E, allChars_app in H. apply andb_true_iff in H.
    destruct H as [_ H]. discriminate H.
  - discriminate.
Qed.

(** ** Runs on the fixtures *)

Example parseFloat_samples :
  parseFloat "12.5" = Prim2SF 12.5%float
  /\ parseFloat "  -1.5e3px" = Prim2SF (-1500)%float
  /\ parseFloat ".5" = Prim2SF 0.5%float
  /\ parseFloat "12abc" = Prim2SF 12%float
  /\ parseFloat "abc" = NaN
  /\ parseFloat "" = NaN
  /\ parseFloat "-Infinity" = Infinity true.
Proof. vm_compute. repeat split. Qed.

(** Decimals that are not binary fractions are rounded to the nearest
    binary64 value, as the primitive floats of the prover read them. *)
Example parseFloat_rounding :
  parseFloat "0.1" = Prim2SF 0x1.999999999999ap-4%float
  /\ parseFloat "0.42" = Prim2SF 0x1.ae147ae147ae1p-2%float
  /\ parseFloat "0.33" = Prim2SF 0x1.51eb851eb851fp-2%float
  /\ parseFloat "0.8" = Prim2SF 0x1.999999999999ap-1%float
  /\ parseFloat "0.30000000000000004" = Prim2SF 0x1.3333333333334p-2%float
  /\ parseFloat "5e-324" = Prim2SF 0x0.0000000000001p-1022%float
  /\ parseFloat "1.7976931348623157e308" = Prim2SF 0x1.fffffffffffffp+1023%float
  /\ parseFloat "1e400" = Infinity false
  /\ parseFloat "-1e-400" = S754_zero true.
Proof. vm_compute. repeat split. Qed.

Example Number_toString_samples :
  map (fun s => Number_toString (parseFloat s))
    [ "0.42"; "12.5"; "0.8"; "0.33"; "-0"; "1e21"; "0.0000001"; "abc";
      "0.30000000000000004"; "-1250.50"; "123456789012345680000"; "5e-324" ]
  = [ "0.42"; "12.5"; "0.8"; "0.33"; "0"; "1e+21"; "1e-7"; "NaN";
      "0.30000000000000004"; "-1250.5"; "123456789012345680000"; "5e-324" ].
Proof. vm_compute. reflexivity. Qed.

Example loadData_map_without_block : loadData_map emptyRecord = Throw TypeError.
Proof. reflexivity. Qed.

(** The end-to-end scenario: one active internal employee with a twelve
    month rate, no cost difference and a rate for May. *)
Example scenario_row :
  exists out,
    data [anaRecord] = Normal [out]
    /\ person out = "Ana "
    /\ map rawField [past12Months out; y2d out; may out; june out; july out]
       = [ "0.8"; ""; "0.33"; ""; "" ]
    /\ netEarningsPrevMonth out = zero
    /\ map percentCell [past12Months out; y2d out; may out] = [ "80%"; "-"; "33%" ].
Proof. exists (rowOf ana). vm_compute. repeat split. Qed.

Example loadData_run :
  loadData [anaRecord; emptyRecord; bobRecord; joRecord] initialState
  = Normal {| loading := false; tableData := [rowOf ana; rowOf jo] |}.
Proof. vm_compute. reflexivity. Qed.

(** ** Properties of the specification *)

(** C1: for every input sequence, a record is included in the output if and
    only if its employees block has status "active" or its externals block
    has status "active". The pass completes and its Rows are, one for one
    and in order, the Rows of exactly the selected records; and a record at
    any place of the input contributes one Row there when it is selected,
    and none when both blocks are absent or neither present block is
    active. *)
Theorem C1_selected_iff_active
    (sourceData before after : list SourceDataType) (row : SourceDataType) :
  (exists kept rows,
     selection sourceData kept
     /\ data sourceData = Normal rows
     /\ Forall2 (fun r out => loadData_map r = Normal out) kept rows)
  /\ exists rowsB rowsA,
       data before = Normal rowsB
       /\ data after = Normal rowsA
       /\ (isSelected row
           /\ (exists out,
                 loadData_map row = Normal out
                 /\ data (before ++ row :: after)%list
                    = Normal (rowsB ++ out :: rowsA)%list)
           \/ noActiveBlock row
              /\ data (before ++ row :: after)%list = Normal (rowsB ++ rowsA)%list).
Proof.
  split.
  - exists (filter loadData_filter sourceData).
    destruct (data_rows sourceData) as [rows [Hd HF]].
    exists rows. split; [apply filter_selection|]. split; assumption.
  - destruct (loadData_filter row) eqn:E.
    + destruct (loadData_map_selected row E) as [out Hout].
      destruct (data_middle before after row out E Hout) as [rowsB [rowsA [HB [HA H]]]].
      exists rowsB, rowsA. split; [exact HB|]. split; [exact HA|].
      left. split; [apply loadData_filter_spec, E|].
      exists out. split; assumption.
    + destruct (data_total before) as [rowsB HB].
      destruct (data_total after) as [rowsA HA].
      exists rowsB, rowsA. split; [exact HB|]. split; [exact HA|].
      right. split; [apply loadData_filter_noActiveBlock, E|].
      rewrite data_app, HB, (data_dropped _ _ E), HA. reflexivity.
Qed.

(** C2: for a record that passes the filter, the Row is built from the
    employees block whenever that block is present, whatever its status,
    and from the externals block only when employees is absent; the record
    yields exactly one Row, at its place in the output. *)
Theorem C2_employees_then_externals
    (l1 l2 : list SourceDataType) (row : SourceDataType)
    (Hsel : loadData_filter row = true) :
  exists out rows1 rows2,
    loadData_map row = Normal out
    /\ match employees row with
       | Some e => out = rowOf e
       | None => exists x, externals row = Some x /\ out = rowOf x
       end
    /\ data l1 = Normal rows1
    /\ data l2 = Normal rows2
    /\ data (l1 ++ row :: l2)%list = Normal (rows1 ++ out :: rows2)%list.
Proof.
  destruct (selected_block row Hsel) as [p Hp].
  pose proof (loadData_map_block row p Hp) as Hm.
  destruct (data_middle l1 l2 row (rowOf p) Hsel Hm) as [rows1 [rows2 [H1 [H2 H]]]].
  exists (rowOf p), rows1, rows2.
  split; [exact Hm|]. split; [|split; [exact H1 | split; [exact H2 | exact H]]].
  destruct (employees row) as [e|]; cbn [coalesceOpt] in Hp.
  - injection Hp as ->. reflexivity.
  - exists p. split; [exact Hp | reflexivity].
Qed.

Lemma C2_witness :
  loadData_filter bobJoRecord = true
  /\ exists out rows1 rows2,
       loadData_map bobJoRecord = Normal out
       /\ out = rowOf bob
       /\ data [anaRecord] = Normal rows1
       /\ data [emptyRecord] = Normal rows2
       /\ data ([anaRecord] ++ bobJoRecord :: [emptyRecord])%list
          = Normal (rows1 ++ out :: rows2)%list.
Proof.
  split; [reflexivity|].
  exact (C2_employees_then_externals [anaRecord] [emptyRecord] bobJoRecord eq_refl).
Defined.

(** C3, as amended: for every selected record, netEarningsPrevMonth is
    never undefined; it is exactly 0 when the chosen person has no
    monthlyCostDifference, and otherwise the result of parseFloat on that
    string, which is NaN when the string has no numeric prefix. *)
Theorem C3_net_earnings (row : SourceDataType) (Hsel : loadData_filter row = true) :
  exists p out,
    coalesceOpt (employees row) (externals row) = Some p
    /\ loadData_map row = Normal out
    /\ netEarningsPrevMonth out =
       match chainOpt (workforceUtilisation p) monthlyCostDifference with
       | None => zero
       | Some s => if hasNumericPrefix s then parseFloat s else NaN
       end.
Proof.
  destruct (selected_block row Hsel) as [p Hp].
  exists p, (rowOf p). split; [exact Hp|].
  split; [apply loadData_map_block, Hp|].
  cbn [rowOf netEarningsPrevMonth].
  destruct (chainOpt (workforceUtilisation p) monthlyCostDifference) as [s|];
    [|reflexivity].
  destruct (hasNumericPrefix s) eqn:E; [reflexivity|].
  apply parseFloat_nan_iff, E.
Qed.

Lemma C3_witness :
  loadData_filter eveRecord = true
  /\ exists p out,
       coalesceOpt (employees eveRecord) (externals eveRecord) = Some p
       /\ loadData_map eveRecord = Normal out
       /\ netEarningsPrevMonth out =
          match chainOpt (workforceUtilisation p) monthlyCostDifference with
          | None => zero
          | Some s => if hasNumericPrefix s then parseFloat s else NaN
          end.
Proof.
  split; [reflexivity | exact (C3_net_earnings eveRecord eq_refl)].
Defined.

(** C3, as stated, fails: the selected record of Eve has the unparseable
    monthlyCostDifference "abc", and its netEarningsPrevMonth is NaN, not 0. *)
Lemma C3_counterexample :
  loadData_filter eveRecord = true
  /\ chainOpt (workforceUtilisation eve) monthlyCostDifference = Some "abc"
  /\ parseFloat "abc" = NaN
  /\ exists out,
       loadData_map eveRecord = Normal out
       /\ netEarningsPrevMonth out = NaN
       /\ netEarningsPrevMonth out <> zero.
Proof.
  split; [reflexivity|]. split; [reflexivity|]. split; [reflexivity|].
  exists (rowOf eve). split; [reflexivity|]. split; [reflexivity|].
  discriminate.
Qed.

(** C4, as amended: a decimal numeral parses to its numeric value
    (parse("12.5") is 12.5), an absent input yields undefined, and a string
    with no numeric prefix yields NaN, never undefined; no record makes the
    normalisation pass throw. *)
Theorem C4_parseUtil
    (ip fp s : string) (sourceData : list SourceDataType)
    (Hip : allDigits ip = true) (Hne : (0 < String.length ip)%nat)
    (Hfp : allDigits fp = true) (Hs : hasNumericPrefix s = false) :
  parseUtil (Some (ip ++ "." ++ fp))
  = Some (roundDecimal false (decimalValue (ip ++ fp)) (- Z.of_nat (String.length fp)))
  /\ parseUtil (Some "12.5") = Some (Prim2SF 12.5%float)
  /\ parseUtil None = None
  /\ parseUtil (Some s) = Some NaN
  /\ exists rows, data sourceData = Normal rows.
Proof.
  split; [cbn [parseUtil]; f_equal; apply parseFloat_decimal; assumption|].
  split; [vm_compute; reflexivity|].
  split; [reflexivity|].
  split; [cbn [parseUtil]; f_equal; apply parseFloat_nan_iff, Hs|].
  apply data_total.
Qed.

Lemma C4_witness :
  (allDigits "12" = true /\ (0 < String.length "12")%nat
   /\ allDigits "5" = true /\ hasNumericPrefix "abc" = false)
  /\ parseUtil (Some ("12" ++ "." ++ "5"))
     = Some (roundDecimal false (decimalValue ("12" ++ "5")) (- Z.of_nat (String.length "5")))
  /\ parseUtil (Some "12.5") = Some (Prim2SF 12.5%float)
  /\ parseUtil None = None
  /\ parseUtil (Some "abc") = Some NaN
  /\ exists rows, data [anaRecord; emptyRecord; eveRecord] = Normal rows.
Proof.
  split.
  - repeat split; simpl; lia.
  - apply (C4_parseUtil "12" "5" "abc" [anaRecord; emptyRecord; eveRecord]);
      simpl; first [reflexivity | lia].
Defined.

(** C4, as stated, fails: the malformed string "abc" parses to NaN, which
    is a Number and not undefined. *)
Lemma C4_counterexample :
  parseUtil (Some "abc") = Some NaN /\ parseUtil (Some "abc") <> None.
Proof.
  split; [reflexivity | discriminate].
Qed.

(** C5: for every selected record, person is firstname, a space and
    lastname (the empty string when lastname is absent), prefixed with
    "External " exactly when the jobType of the chosen block is "external",
    whichever key the block came from. *)
Theorem C5_person_name (row : SourceDataType) (Hsel : loadData_filter row = true) :
  exists p out,
    coalesceOpt (employees row) (externals row) = Some p
    /\ loadData_map row = Normal out
    /\ person out =
       (if String.eqb (jobType p) "external" then "External " else "")
       ++ firstname p ++ " "
       ++ match lastname p with
          | Some l => l
          | None => ""
          end.
Proof.
  destruct (selected_block row Hsel) as [p Hp].
  exists p, (rowOf p). split; [exact Hp|].
  split; [apply loadData_map_block, Hp | reflexivity].
Qed.

Lemma C5_witness :
  loadData_filter joRecord = true
  /\ exists p out,
       coalesceOpt (employees joRecord) (externals joRecord) = Some p
       /\ loadData_map joRecord = Normal out
       /\ person out =
          (if String.eqb (jobType p) "external" then "External " else "")
          ++ firstname p ++ " "
          ++ match lastname p with
             | Some l => l
             | None => ""
             end.
Proof.
  split; [reflexivity | exact (C5_person_name joRecord eq_refl)].
Defined.

Example person_samples :
  person (rowOf jo) = "External Jo Lin"
  /\ loadData_map joRecord = Normal (rowOf jo)
  /\ person (rowOf ana) = "Ana "
  /\ loadData_map anaRecord = Normal (rowOf ana)
  /\ person (rowOf {| status := "active"; jobType := "external"; firstname := "Kim";
                      lastname := None; workforceUtilisation := None |})
     = "External Kim "
  /\ loadData_map
       {| employees :=
            Some {| status := "active"; jobType := "external"; firstname := "Kim";
                    lastname := None; workforceUtilisation := None |};
          externals := None |}
     = Normal (rowOf {| status := "active"; jobType := "external"; firstname := "Kim";
                        lastname := None; workforceUtilisation := None |}).
Proof. repeat split. Qed.

(** C6: the month lookup compares month names exactly, returns the parsed
    rate of the first entry with that month, and is absent when no entry
    has it; with two entries for "May" of rates "0.5" and "0.9", May
    resolves to 0.5, and "may" matches nothing. *)
Theorem C6_month_lookup (util : option WorkforceUtilisation) (name : string) :
  exists r,
    firstMatch name (coalesce (chainOpt util lastThreeMonthsIndividually) []) r
    /\ getMonthUtil util name =
       match r with
       | Some e => Some (parseFloat (utilisationRate e))
       | None => None
       end
    /\ getMonthUtil (Some mayTwice) "May" = Some (Prim2SF 0.5%float)
    /\ getMonthUtil (Some mayTwice) "may" = None
    /\ loadData_map joRecord = Normal (rowOf jo)
    /\ may (rowOf jo) = Some (Prim2SF 0.5%float).
Proof.
  exists (find (fun m => String.eqb (month m) name)
            (coalesce (chainOpt util lastThreeMonthsIndividually) [])).
  split; [apply find_firstMatch|].
  split; [|repeat split; vm_compute; reflexivity].
  unfold getMonthUtil.
  destruct (chainOpt util lastThreeMonthsIndividually) as [entries|];
    cbn [coalesce chainOpt find]; [|reflexivity].
  destruct (find _ entries); reflexivity.
Qed.

(** C7: the output keeps the order of the input: when selected record [a]
    precedes selected record [b], the Row of [a] precedes the Row of [b],
    each at the place of its record among the Rows of the other records. *)
Theorem C7_order_preserved
    (l1 l2 l3 : list SourceDataType) (a b : SourceDataType)
    (Ha : loadData_filter a = true) (Hb : loadData_filter b = true) :
  exists rows1 rows2 rows3 outA outB,
    data l1 = Normal rows1 /\ data l2 = Normal rows2 /\ data l3 = Normal rows3
    /\ loadData_map a = Normal outA /\ loadData_map b = Normal outB
    /\ data (l1 ++ a :: l2 ++ b :: l3)%list
       = Normal (rows1 ++ outA :: rows2 ++ outB :: rows3)%list.
Proof.
  destruct (loadData_map_selected a Ha) as [outA HA].
  destruct (loadData_map_selected b Hb) as [outB HB].
  destruct (data_middle l2 l3 b outB Hb HB) as [rows2 [rows3 [H2 [H3 H23]]]].
  destruct (data_middle l1 (l2 ++ b :: l3) a outA Ha HA) as [rows1 [rest [H1 [Hrest H]]]].
  exists rows1, rows2, rows3, outA, outB.
  rewrite H23 in Hrest. injection Hrest as <-.
  repeat split; assumption.
Qed.

Lemma C7_witness :
  (loadData_filter joRecord = true /\ loadData_filter anaRecord = true)
  /\ exists rows1 rows2 rows3 outA outB,
       data [bobRecord] = Normal rows1 /\ data [eveRecord] = Normal rows2
       /\ data [emptyRecord] = Normal rows3
       /\ loadData_map joRecord = Normal outA /\ loadData_map anaRecord = Normal outB
       /\ data ([bobRecord] ++ joRecord :: [eveRecord] ++ anaRecord :: [emptyRecord])%list
          = Normal (rows1 ++ outA :: rows2 ++ outB :: rows3)%list.
Proof.
  split; [split; reflexivity|].
  exact (C7_order_preserved [bobRecord] [eveRecord] [emptyRecord] joRecord anaRecord
           eq_refl eq_refl).
Defined.

(** C10: a record that passes the filter has at least one person block, so
    the chosen block is defined, the unguarded reads of firstname and
    lastname complete normally, and the map callback returns a Row; the
    whole pass therefore completes on every input. *)
Theorem C10_block_defined
    (sourceData : list SourceDataType) (row : SourceDataType)
    (Hsel : loadData_filter row = true) :
  exists p out,
    (employees row = Some p \/ employees row = None /\ externals row = Some p)
    /\ coalesceOpt (employees row) (externals row) = Some p
    /\ getProp (coalesceOpt (employees row) (externals row)) firstname
       = Normal (firstname p)
    /\ getProp (coalesceOpt (employees row) (externals row)) lastname
       = Normal (lastname p)
    /\ loadData_map row = Normal out
    /\ exists rows, data sourceData = Normal rows.
Proof.
  destruct (selected_block row Hsel) as [p Hp].
  exists p, (rowOf p).
  split.
  { destruct (employees row) as [e|]; cbn [coalesceOpt] in Hp.
    - left. exact Hp.
    - right. split; [reflexivity | exact Hp]. }
  split; [exact Hp|]. rewrite Hp.
  split; [reflexivity|]. split; [reflexivity|].
  split; [apply loadData_map_block, Hp | apply data_total].
Qed.

Lemma C10_witness :
  loadData_filter joRecord = true
  /\ exists p out,
       (employees joRecord = Some p
        \/ employees joRecord = None /\ externals joRecord = Some p)
       /\ coalesceOpt (employees joRecord) (externals joRecord) = Some p
       /\ getProp (coalesceOpt (employees joRecord) (externals joRecord)) firstname
          = Normal (firstname p)
       /\ getProp (coalesceOpt (employees joRecord) (externals joRecord)) lastname
          = Normal (lastname p)
       /\ loadData_map joRecord = Normal out
       /\ exists rows, data [emptyRecord; joRecord; bobRecord] = Normal rows.
Proof.
  split; [reflexivity|].
  exact (C10_block_defined [emptyRecord; joRecord; bobRecord] joRecord eq_refl).
Defined.

(** ** Further properties of [parseUtil] *)

Lemma trimStart_whitespace (ws s : string) :
  allChars isWhiteSpace ws = true -> trimStart (ws ++ s) = trimStart s.
Proof.
  induction ws as [|c ws IH]; cbn [allChars append]; [reflexivity|].
  intros H. apply andb_true_iff in H. destruct H as [Hc Hws].
  cbn [trimStart]. rewrite Hc. apply IH, Hws.
Qed.

Lemma trimStart_plain (u : string) :
  headIsSpaceOrSign u = false -> trimStart u = u.
Proof.
  destruct u as [|c u]; cbn [headIsSpaceOrSign trimStart]; [reflexivity|].
  intros H. apply orb_false_iff in H. destruct H as [H _].
  apply orb_false_iff in H. destruct H as [H _]. rewrite H. reflexivity.
Qed.

Lemma scanSign_plain (u : string) :
  headIsSpaceOrSign u = false -> scanSign u = (false, u).
Proof.
  destruct u as [|c u]; cbn [headIsSpaceOrSign]; [reflexivity|].
  intros H. apply orb_false_iff in H. destruct H as [H Hp].
  apply orb_false_iff in H. destruct H as [_ Hm].
  unfold scanSign. cbn [afterChar]. rewrite Hm, Hp. reflexivity.
Qed.

Lemma binary_round_aux_opp (m e : Z) (l : location) :
  binary_round_aux prec emax true m e l
  = SFopp (binary_round_aux prec emax false m e l).
Proof.
  unfold binary_round_aux.
  destruct (shr_fexp prec emax m e l) as [mrs' e'].
  destruct (shr_fexp prec emax _ e' loc_Exact) as [mrs'' e''].
  destruct (shr_m mrs'') as [|q|q]; try reflexivity.
  destruct (e'' <=? emax - prec)%Z; reflexivity.
Qed.

Lemma roundDecimal_opp (m : N) (e : Z) :
  roundDecimal true m e = SFopp (roundDecimal false m e).
Proof.
  unfold roundDecimal, roundRatio. destruct m as [|p]; [reflexivity|].
  destruct e as [|k|k];
    match goal with
    | |- context [Z.div_eucl ?a ?b] => destruct (Z.div_eucl a b) as [q r]
    end; apply binary_round_aux_opp.
Qed.

(** The sign of a rounded decimal is the sign it was given. *)
Lemma binary_round_aux_nonneg (m e : Z) (l : location) :
  SFleb zero (binary_round_aux prec emax false m e l)
  = negb (isNaN (binary_round_aux prec emax false m e l)).
Proof.
  unfold binary_round_aux.
  destruct (shr_fexp prec emax m e l) as [mrs' e'].
  destruct (shr_fexp prec emax _ e' loc_Exact) as [mrs'' e''].
  destruct (shr_m mrs'') as [|q|q]; try reflexivity.
  destruct (e'' <=? emax - prec)%Z; reflexivity.
Qed.

Lemma roundDecimal_nonneg (m : N) (e : Z) :
  SFleb zero (roundDecimal false m e) = true.
Proof.
  pose proof (roundDecimal_not_nan false m e) as Hn.
  assert (H : SFleb zero (roundDecimal false m e)
              = negb (isNaN (roundDecimal false m e))).
  { unfold roundDecimal, roundRatio. destruct m as [|p]; [reflexivity|].
    destruct e as [|k|k];
      match goal with
      | |- context [Z.div_eucl ?a ?b] => destruct (Z.div_eucl a b) as [q r]
      end; apply binary_round_aux_nonneg. }
  rewrite H. destruct (roundDecimal false m e); try reflexivity.
  exfalso. apply Hn. reflexivity.
Qed.

(** A numeral followed by text that cannot continue it. *)
Lemma strUnsignedDecimalLiteral_decimal (ip fp rest : string) :
  allDigits ip = true -> (0 < String.length ip)%nat -> allDigits fp = true ->
  headIsDigit rest = false -> headIsExponent rest = false ->
  strUnsignedDecimalLiteral (ip ++ "." ++ fp ++ rest)
  = Some (LitDecimal (decimalValue (ip ++ fp)) (- Z.of_nat (String.length fp))).
Proof.
  intros Hip Hne Hfp Hd He.
  destruct ip as [|c ip']; [cbn [String.length] in Hne; lia|].
  pose proof Hip as Hc. cbn [allDigits] in Hc. apply andb_true_iff in Hc.
  destruct Hc as [Hc _].
  destruct (isDigit_plain c Hc) as [_ [_ [_ [Hi _]]]].
  unfold strUnsignedDecimalLiteral.
  assert (Hinf : String.prefix "Infinity" (String c ip' ++ "." ++ fp ++ rest) = false).
  { cbn [append String.prefix].
    destruct (ascii_dec "I"%char c) as [<-|_]; [discriminate Hi | reflexivity]. }
  rewrite Hinf.
  rewrite (scanDigits_allDigits (String c ip') ("." ++ fp ++ rest) 0 0 Hip eq_refl).
  cbn [append afterChar]. change (Ascii.eqb "." ".") with true. cbv iota.
  rewrite (scanDigits_allDigits fp rest _ 0 Hfp Hd).
  assert (Hn : ((0 + N.of_nat (String.length (String c ip')) =? 0)%N = false))
    by (apply N.eqb_neq; cbn [String.length]; lia).
  rewrite Hn. cbn [andb].
  assert (Hx : scanExponent rest = 0%Z).
  { destruct rest as [|d rest']; [reflexivity|].
    cbn [headIsExponent] in He. cbn [scanExponent]. rewrite He. reflexivity. }
  rewrite Hx. unfold decimalValue.
  change (String c (ip' ++ fp)) with (String c ip' ++ fp).
  rewrite decimalValueFrom_app. f_equal. f_equal. lia.
Qed.

Lemma strUnsignedDecimalLiteral_integer (ip rest : string) :
  allDigits ip = true -> (0 < String.length ip)%nat ->
  headIsDigit rest = false -> headIsDot rest = false -> headIsExponent rest = false ->
  strUnsignedDecimalLiteral (ip ++ rest) = Some (LitDecimal (decimalValue ip) 0).
Proof.
  intros Hip Hne Hd Hdot He.
  destruct ip as [|c ip']; [cbn [String.length] in Hne; lia|].
  pose proof Hip as Hc. cbn [allDigits] in Hc. apply andb_true_iff in Hc.
  destruct Hc as [Hc _].
  destruct (isDigit_plain c Hc) as [_ [_ [_ [Hi _]]]].
  unfold strUnsignedDecimalLiteral.
  assert (Hinf : String.prefix "Infinity" (String c ip' ++ rest) = false).
  { cbn [append String.prefix].
    destruct (ascii_dec "I"%char c) as [<-|_]; [discriminate Hi | reflexivity]. }
  rewrite Hinf.
  rewrite (scanDigits_allDigits (String c ip') rest 0 0 Hip Hd).
  unfold headIsDot in Hdot. destruct (afterChar "." rest); [discriminate|].
  assert (Hn : ((0 + N.of_nat (String.length (String c ip')) =? 0)%N = false))
    by (apply N.eqb_neq; cbn [String.length]; lia).
  rewrite Hn.
  assert (Hx : scanExponent rest = 0%Z).
  { destruct rest as [|d rest']; [reflexivity|].
    cbn [headIsExponent] in He. cbn [scanExponent]. rewrite He. reflexivity. }
  rewrite Hx. reflexivity.
Qed.

Lemma parseFloat_digit_head (c : ascii) (u : string) :
  isDigit c = true ->
  parseFloat (String c u)
  = match strUnsignedDecimalLiteral (String c u) with
    | None => NaN
    | Some LitInfinity => Infinity false
    | Some (LitDecimal m e) => roundDecimal false m e
    end.
Proof.
  intros Hc. destruct (isDigit_plain c Hc) as [Hw [Hm [Hp _]]].
  unfold parseFloat. cbn [trimStart]. rewrite Hw.
  unfold scanSign. cbn [afterChar]. rewrite Hm, Hp. reflexivity.
Qed.

(** X1: [parseUtil] never answers undefined on a present string, and its
    answer is NaN exactly when the string has no numeric prefix. *)
Theorem parseUtil_nan_iff_no_prefix (s : string) :
  exists x,
    parseUtil (Some s) = Some x
    /\ isNaN x = negb (hasNumericPrefix s).
Proof.
  exists (parseFloat s). split; [reflexivity|].
  destruct (hasNumericPrefix s) eqn:E; cbn [negb].
  - destruct (parseFloat s) eqn:P; try reflexivity.
    apply parseFloat_nan_iff in P. congruence.
  - apply parseFloat_nan_iff in E. rewrite E. reflexivity.
Qed.

(** X2: text after a decimal numeral is ignored, as long as it does not
    start with a digit or an exponent mark: "12.5abc", "12.5 %" and "1.2.3"
    parse like "12.5", "12.5" and "1.2". *)
Theorem parseUtil_ignores_text_after_decimal
    (ip fp rest : string)
    (Hip : allDigits ip = true) (Hne : (0 < String.length ip)%nat)
    (Hfp : allDigits fp = true)
    (Hd : headIsDigit rest = false) (He : headIsExponent rest = false) :
  parseUtil (Some (ip ++ "." ++ fp ++ rest)) = parseUtil (Some (ip ++ "." ++ fp)).
Proof.
  cbn [parseUtil]. f_equal.
  pose proof (strUnsignedDecimalLiteral_decimal ip fp rest Hip Hne Hfp Hd He) as H1.
  pose proof (strUnsignedDecimalLiteral_decimal ip fp "" Hip Hne Hfp eq_refl eq_refl) as H2.
  rewrite string_app_nil_r in H2.
  destruct ip as [|c ip']; [cbn [String.length] in Hne; lia|].
  cbn [allDigits] in Hip. apply andb_true_iff in Hip. destruct Hip as [Hc _].
  cbn [append] in *.
  rewrite !(parseFloat_digit_head c _ Hc), H1, H2. reflexivity.
Qed.

Lemma parseUtil_ignores_text_after_decimal_witness :
  (allDigits "12" = true /\ (0 < String.length "12")%nat /\ allDigits "5" = true
   /\ headIsDigit " %" = false /\ headIsExponent " %" = false)
  /\ parseUtil (Some ("12" ++ "." ++ "5" ++ " %")) = parseUtil (Some ("12" ++ "." ++ "5")).
Proof.
  split.
  - repeat split; simpl; lia.
  - apply (parseUtil_ignores_text_after_decimal "12" "5" " %");
      simpl; first [reflexivity | lia].
Defined.

(** X3: text after an integer numeral is ignored, as long as it does not
    start with a digit, a dot or an exponent mark; a decimal comma in
    particular ends the number, so "0,5" parses like "0" and "12px" like
    "12". *)
Theorem parseUtil_ignores_text_after_integer
    (ip rest : string)
    (Hip : allDigits ip = true) (Hne : (0 < String.length ip)%nat)
    (Hd : headIsDigit rest = false) (Hdot : headIsDot rest = false)
    (He : headIsExponent rest = false) :
  parseUtil (Some (ip ++ rest)) = parseUtil (Some ip).
Proof.
  cbn [parseUtil]. f_equal.
  pose proof (strUnsignedDecimalLiteral_integer ip rest Hip Hne Hd Hdot He) as H1.
  pose proof (strUnsignedDecimalLiteral_integer ip "" Hip Hne eq_refl eq_refl eq_refl) as H2.
  rewrite string_app_nil_r in H2.
  destruct ip as [|c ip']; [cbn [String.length] in Hne; lia|].
  cbn [allDigits] in Hip. apply andb_true_iff in Hip. destruct Hip as [Hc _].
  cbn [append] in *.
  rewrite !(parseFloat_digit_head c _ Hc), H1, H2. reflexivity.
Qed.

Lemma parseUtil_ignores_text_after_integer_witness :
  (allDigits "0" = true /\ (0 < String.length "0")%nat
   /\ headIsDigit ",5" = false /\ headIsDot ",5" = false /\ headIsExponent ",5" = false)
  /\ parseUtil (Some ("0" ++ ",5")) = parseUtil (Some "0").
Proof.
  split.
  - repeat split; simpl; lia.
  - apply (parseUtil_ignores_text_after_integer "0" ",5");
      simpl; first [reflexivity | lia].
Defined.

(** X4: white space before the text is ignored. *)
Theorem parseUtil_ignores_leading_whitespace
    (ws s : string) (Hws : allChars isWhiteSpace ws = true) :
  parseUtil (Some (ws ++ s)) = parseUtil (Some s).
Proof.
  cbn [parseUtil]. f_equal. unfold parseFloat.
  rewrite (trimStart_whitespace ws s Hws). reflexivity.
Qed.

Lemma parseUtil_ignores_leading_whitespace_witness :
  allChars isWhiteSpace "  " = true
  /\ parseUtil (Some ("  " ++ "0.8")) = parseUtil (Some "0.8").
Proof.
  split; [reflexivity|].
  apply (parseUtil_ignores_leading_whitespace "  " "0.8"). reflexivity.
Defined.

Lemma parseUtil_sign_aux (u : string) :
  headIsSpaceOrSign u = false -> parseFloat ("-" ++ u) = SFopp (parseFloat u).
Proof.
  intros Hu. cbn [append]. unfold parseFloat.
  rewrite (trimStart_plain u Hu), (scanSign_plain u Hu).
  change (trimStart (String "-" u)) with (String "-" u).
  change (scanSign (String "-" u)) with (true, u).
  cbv beta iota zeta.
  destruct (strUnsignedDecimalLiteral u) as [[|m e]|]; try reflexivity.
  apply roundDecimal_opp.
Qed.

(** X5: a leading minus negates the value read from the rest of the text,
    and a leading plus leaves it as it is, when the rest starts with
    neither white space nor another sign. *)
Theorem parseUtil_sign
    (u : string) (Hu : headIsSpaceOrSign u = false) :
  parseUtil (Some ("-" ++ u)) = option_map SFopp (parseUtil (Some u))
  /\ parseUtil (Some ("+" ++ u)) = parseUtil (Some u).
Proof.
  cbn [parseUtil option_map append]. unfold parseFloat.
  rewrite (trimStart_plain u Hu), (scanSign_plain u Hu).
  split; [f_equal | reflexivity].
  change (trimStart (String "-" u)) with (String "-" u).
  change (scanSign (String "-" u)) with (true, u).
  cbv beta iota zeta.
  destruct (strUnsignedDecimalLiteral u) as [[|m e]|]; try reflexivity.
  apply roundDecimal_opp.
Qed.

Lemma parseUtil_sign_witness :
  headIsSpaceOrSign "1250.5" = false
  /\ parseUtil (Some ("-" ++ "1250.5")) = option_map SFopp (parseUtil (Some "1250.5"))
  /\ parseUtil (Some ("+" ++ "1250.5")) = parseUtil (Some "1250.5").
Proof.
  split; [reflexivity | apply (parseUtil_sign "1250.5"); reflexivity].
Defined.

(** ** Further properties of [getMonthUtil] *)

Lemma getMonthUtil_entries (u : WorkforceUtilisation) (l : list MonthEntry) (name : string) :
  lastThreeMonthsIndividually u = Some l ->
  getMonthUtil (Some u) name
  = option_map (fun e => parseFloat (utilisationRate e))
      (find (fun m => String.eqb (month m) name) l).
Proof.
  intros H. unfold getMonthUtil. cbn [chainOpt]. rewrite H. cbn [chainOpt].
  destruct (find _ l); reflexivity.
Qed.

Lemma find_filter_same {A : Type} (f : A -> bool) (l : list A) :
  find f (filter f l) = find f l.
Proof.
  induction l as [|x l IH]; cbn [filter find]; [reflexivity|].
  destruct (f x) eqn:E; cbn [find]; [rewrite E; reflexivity | exact IH].
Qed.

Lemma find_none_iff {A : Type} (f : A -> bool) (l : list A) :
  find f l = None <-> Forall (fun x => f x = false) l.
Proof.
  induction l as [|x l IH]; cbn [find].
  - split; [constructor | reflexivity].
  - destruct (f x) eqn:E; split; intros H.
    + discriminate.
    + inversion H; congruence.
    + constructor; [exact E | apply IH, H].
    + inversion H; subst. apply IH. assumption.
Qed.

Lemma find_permutation (name : string) (l l' : list MonthEntry) :
  Permutation l l' -> NoDup (months l) ->
  find (fun m => String.eqb (month m) name) l
  = find (fun m => String.eqb (month m) name) l'.
Proof.
  induction 1 as [|x l l' HP IH|x y l|l l' l'' HP1 IH1 HP2 IH2]; intros Hnd.
  - reflexivity.
  - cbn [find]. destruct (String.eqb (month x) name); [reflexivity|].
    apply IH. unfold months in *. cbn [map] in Hnd. inversion Hnd; assumption.
  - cbn [find].
    destruct (String.eqb_spec (month y) name) as [Ey|Ey];
      destruct (String.eqb_spec (month x) name) as [Ex|Ex]; try reflexivity.
    exfalso. unfold months in Hnd. cbn [map] in Hnd.
    inversion Hnd as [|a b Hnin _]; subst. apply Hnin. left. congruence.
  - rewrite IH1 by exact Hnd. apply IH2.
    unfold months in *. apply (Permutation_NoDup (l := map month l)); [|exact Hnd].
    apply Permutation_map, HP1.
Qed.

(** X6: the entries of other months never change what a month resolves
    to: the lookup sees the same rate when only the entries of that month
    are kept. *)
Theorem getMonthUtil_other_months_irrelevant
    (u u' : WorkforceUtilisation) (l : list MonthEntry) (name : string)
    (Hu : lastThreeMonthsIndividually u = Some l)
    (Hu' : lastThreeMonthsIndividually u'
           = Some (filter (fun m => String.eqb (month m) name) l)) :
  getMonthUtil (Some u) name = getMonthUtil (Some u') name.
Proof.
  rewrite (getMonthUtil_entries u l name Hu).
  rewrite (getMonthUtil_entries u' _ name Hu').
  rewrite find_filter_same. reflexivity.
Qed.

Lemma getMonthUtil_other_months_irrelevant_witness :
  (lastThreeMonthsIndividually (withMonths [june7; may5; may9])
   = Some [june7; may5; may9]
   /\ lastThreeMonthsIndividually (withMonths [may5; may9])
      = Some (filter (fun m => String.eqb (month m) "May") [june7; may5; may9]))
  /\ getMonthUtil (Some (withMonths [june7; may5; may9])) "May"
     = getMonthUtil (Some (withMonths [may5; may9])) "May".
Proof.
  split; [split; reflexivity|].
  exact (getMonthUtil_other_months_irrelevant
           (withMonths [june7; may5; may9]) (withMonths [may5; may9])
           [june7; may5; may9] "May" eq_refl eq_refl).
Defined.

(** X7: when no two entries name the same month, the order of the entries
    does not matter: every month resolves to the same rate after the
    entries are permuted. *)
Theorem getMonthUtil_order_irrelevant
    (u u' : WorkforceUtilisation) (l l' : list MonthEntry) (name : string)
    (Hu : lastThreeMonthsIndividually u = Some l)
    (Hu' : lastThreeMonthsIndividually u' = Some l')
    (Hperm : Permutation l l') (Hnd : NoDup (months l)) :
  getMonthUtil (Some u) name = getMonthUtil (Some u') name.
Proof.
  rewrite (getMonthUtil_entries u l name Hu).
  rewrite (getMonthUtil_entries u' l' name Hu').
  rewrite (find_permutation name l l' Hperm Hnd). reflexivity.
Qed.

Lemma getMonthUtil_order_irrelevant_witness :
  (lastThreeMonthsIndividually (withMonths [may5; june7]) = Some [may5; june7]
   /\ lastThreeMonthsIndividually (withMonths [june7; may5]) = Some [june7; may5]
   /\ Permutation [may5; june7] [june7; may5]
   /\ NoDup (months [may5; june7]))
  /\ getMonthUtil (Some (withMonths [may5; june7])) "June"
     = getMonthUtil (Some (withMonths [june7; may5])) "June".
Proof.
  assert (Hp : Permutation [may5; june7] [june7; may5]) by apply perm_swap.
  assert (Hn : NoDup (months [may5; june7])).
  { unfold months. cbn [map month may5 june7].
    constructor; [|constructor; [intros []|constructor]].
    intros [H|[]]. discriminate H. }
  split; [repeat split; assumption|].
  exact (getMonthUtil_order_irrelevant
           (withMonths [may5; june7]) (withMonths [june7; may5])
           [may5; june7] [june7; may5] "June" eq_refl eq_refl Hp Hn).
Defined.

(** ** Further properties of the pass *)

Lemma data_cons (row : SourceDataType) (l : list SourceDataType) :
  data (row :: l)
  = if loadData_filter row
    then (out <- loadData_map row ;; rows <- data l ;; Normal (out :: rows))
    else data l.
Proof.
  unfold data. cbn [filter]. destruct (loadData_filter row); reflexivity.
Qed.

Lemma filter_idempotent {A : Type} (f : A -> bool) (l : list A) :
  filter f (filter f l) = filter f l.
Proof.
  induction l as [|x l IH]; cbn [filter]; [reflexivity|].
  destruct (f x) eqn:E; cbn [filter]; [rewrite E, IH; reflexivity | exact IH].
Qed.

Lemma data_permutation (l l' : list SourceDataType) :
  Permutation l l' ->
  forall rows, data l = Normal rows ->
  exists rows', data l' = Normal rows' /\ Permutation rows rows'.
Proof.
  induction 1 as [|x l l' HP IH|x y l|l l' l'' HP1 IH1 HP2 IH2]; intros rows Hd.
  - exists rows. split; [exact Hd | apply Permutation_refl].
  - rewrite data_cons in Hd |- *. destruct (loadData_filter x) eqn:Ex.
    + destruct (loadData_map x) as [out|e]; [|discriminate Hd].
      cbn [bind] in Hd |- *. destruct (data l) as [r|e]; [|discriminate Hd].
      cbn [bind] in Hd. injection Hd as <-.
      destruct (IH r eq_refl) as [r' [Hr' HP']].
      exists (out :: r'). rewrite Hr'. split; [reflexivity|].
      apply perm_skip, HP'.
    + apply IH, Hd.
  - rewrite !data_cons in Hd |- *.
    destruct (loadData_filter x) eqn:Ex; destruct (loadData_filter y) eqn:Ey;
      try (exists rows; split; [exact Hd | apply Permutation_refl]).
    destruct (loadData_map y) as [oy|e]; [|discriminate Hd].
    destruct (loadData_map x) as [ox|e]; [|discriminate Hd].
    cbn [bind] in Hd |- *. destruct (data l) as [r|e]; [|discriminate Hd].
    cbn [bind] in Hd |- *. injection Hd as <-.
    exists (ox :: oy :: r). split; [reflexivity | apply perm_swap].
  - destruct (IH1 rows Hd) as [r' [Hr' HP']].
    destruct (IH2 r' Hr') as [r'' [Hr'' HP'']].
    exists r''. split; [exact Hr''|].
    apply (Permutation_trans HP' HP'').
Qed.

(** X8: the pass works batch by batch: the Rows of two inputs put end to
    end are the Rows of the first followed by the Rows of the second. *)
Theorem data_of_concatenation (l1 l2 : list SourceDataType) :
  exists rows1 rows2,
    data l1 = Normal rows1
    /\ data l2 = Normal rows2
    /\ data (l1 ++ l2)%list = Normal (rows1 ++ rows2)%list.
Proof.
  destruct (data_total l1) as [rows1 H1].
  destruct (data_total l2) as [rows2 H2].
  exists rows1, rows2. split; [exact H1|]. split; [exact H2|].
  rewrite data_app, H1, H2. reflexivity.
Qed.

(** X9: reordering the input only reorders the output: the Rows of a
    permutation of the records are a permutation of the Rows. *)
Theorem data_of_permutation
    (l l' : list SourceDataType) (Hperm : Permutation l l') :
  exists rows rows',
    data l = Normal rows
    /\ data l' = Normal rows'
    /\ Permutation rows rows'.
Proof.
  destruct (data_total l) as [rows Hd].
  destruct (data_permutation l l' Hperm rows Hd) as [rows' [Hd' HP]].
  exists rows, rows'. split; [exact Hd|]. split; [exact Hd' | exact HP].
Qed.

Lemma data_of_permutation_witness :
  Permutation [anaRecord; bobRecord; joRecord] [joRecord; anaRecord; bobRecord]
  /\ exists rows rows',
       data [anaRecord; bobRecord; joRecord] = Normal rows
       /\ data [joRecord; anaRecord; bobRecord] = Normal rows'
       /\ Permutation rows rows'.
Proof.
  assert (Hp : Permutation [anaRecord; bobRecord; joRecord]
                 [joRecord; anaRecord; bobRecord]).
  { apply Permutation_sym.
    apply (Permutation_cons_app [anaRecord; bobRecord] [] joRecord).
    apply Permutation_refl. }
  split; [exact Hp | exact (data_of_permutation _ _ Hp)].
Defined.

(** X10: the output has one Row for each selected record and therefore
    never more Rows than the input has records; records that are not
    selected can be removed beforehand without changing the output. *)
Theorem data_counts_selected (sourceData : list SourceDataType) :
  exists rows,
    data sourceData = Normal rows
    /\ data (filter loadData_filter sourceData) = Normal rows
    /\ List.length rows = List.length (filter loadData_filter sourceData)
    /\ (List.length rows <= List.length sourceData)%nat.
Proof.
  destruct (data_rows sourceData) as [rows [Hd HF]].
  exists rows. split; [exact Hd|].
  split; [unfold data in *; rewrite filter_idempotent; exact Hd|].
  pose proof (Forall2_length HF) as HL.
  split; [symmetry; exact HL|].
  rewrite <- HL. apply filter_length_le.
Qed.

(** X11: the map callback throws exactly on a record that has neither
    block; on any record with a block, selected or not, it returns a Row. *)
Theorem loadData_map_throws_only_without_block (row : SourceDataType) :
  match employees row, externals row with
  | None, None => loadData_map row = Throw TypeError
  | _, _ => exists out, loadData_map row = Normal out
  end.
Proof.
  destruct (employees row) as [e|] eqn:He.
  - exists (rowOf e). apply loadData_map_block. rewrite He. reflexivity.
  - destruct (externals row) as [x|] eqn:Hx.
    + exists (rowOf x). apply loadData_map_block. rewrite He. exact Hx.
    + apply loadData_map_no_block; assumption.
Qed.

(** ** The cells *)

Lemma percentCell_dash (v : option number) :
  percentCell v = "-" <-> v = None.
Proof.
  destruct v as [x|]; cbn [percentCell]; split; intros H;
    try reflexivity; try discriminate H.
  exfalso.
  destruct (Number_toFixed0 (Number_multiply x (roundDecimal false 100 0)))
    as [|c [|d t]]; cbn [append] in H; discriminate H.
Qed.

Lemma parseUtil_none (val : option string) : parseUtil val = None <-> val = None.
Proof.
  destruct val; cbn [parseUtil]; split; intros H; try reflexivity; discriminate H.
Qed.

Lemma getMonthUtil_none (util : option WorkforceUtilisation) (name : string) :
  getMonthUtil util name = None
  <-> Forall (fun m => month m <> name)
        (coalesce (chainOpt util lastThreeMonthsIndividually) []).
Proof.
  unfold getMonthUtil. rewrite parseUtil_none.
  set (l := coalesce (chainOpt util lastThreeMonthsIndividually) []).
  assert (E : chain (chainOpt (chainOpt util lastThreeMonthsIndividually)
                       (find (fun m => String.eqb (month m) name)))
                utilisationRate = None
              <-> find (fun m => String.eqb (month m) name) l = None).
  { unfold l. destruct (chainOpt util lastThreeMonthsIndividually) as [es|];
      cbn [chainOpt coalesce find]; [|split; reflexivity].
    destruct (find _ es); cbn [chain]; split; intros H;
      try reflexivity; discriminate H. }
  rewrite E, find_none_iff. split; intros H.
  - eapply Forall_impl; [|exact H]. intros m Hm. apply String.eqb_neq, Hm.
  - eapply Forall_impl; [|exact H]. intros m Hm. apply String.eqb_neq, Hm.
Qed.

(** X12: a percentage cell shows the dash exactly when the source has no
    value for it: for the two period columns when the string is absent
    from the chosen block, and for a month column when no entry names the
    month. A present string is never shown as a dash, whatever it holds. *)
Theorem dash_iff_absent (row : SourceDataType) (Hsel : loadData_filter row = true) :
  exists p out,
    coalesceOpt (employees row) (externals row) = Some p
    /\ loadData_map row = Normal out
    /\ (percentCell (past12Months out) = "-"
        <-> chainOpt (workforceUtilisation p) utilisationRateLastTwelveMonths = None)
    /\ (percentCell (y2d out) = "-"
        <-> chainOpt (workforceUtilisation p) utilisationRateYearToDate = None)
    /\ (percentCell (may out) = "-"
        <-> Forall (fun m => month m <> "May")
              (coalesce (chainOpt (workforceUtilisation p) lastThreeMonthsIndividually) []))
    /\ (percentCell (june out) = "-"
        <-> Forall (fun m => month m <> "June")
              (coalesce (chainOpt (workforceUtilisation p) lastThreeMonthsIndividually) []))
    /\ (percentCell (july out) = "-"
        <-> Forall (fun m => month m <> "July")
              (coalesce (chainOpt (workforceUtilisation p) lastThreeMonthsIndividually) [])).
Proof.
  destruct (selected_block row Hsel) as [p Hp].
  exists p, (rowOf p). split; [exact Hp|].
  split; [apply loadData_map_block, Hp|].
  cbn [rowOf past12Months y2d may june july].
  rewrite !percentCell_dash, !parseUtil_none, !getMonthUtil_none.
  repeat split; intros H; exact H.
Qed.

Lemma dash_iff_absent_witness :
  loadData_filter anaRecord = true
  /\ exists p out,
       coalesceOpt (employees anaRecord) (externals anaRecord) = Some p
       /\ loadData_map anaRecord = Normal out
       /\ (percentCell (past12Months out) = "-"
           <-> chainOpt (workforceUtilisation p) utilisationRateLastTwelveMonths = None)
       /\ (percentCell (y2d out) = "-"
           <-> chainOpt (workforceUtilisation p) utilisationRateYearToDate = None)
       /\ (percentCell (may out) = "-"
           <-> Forall (fun m => month m <> "May")
                 (coalesce (chainOpt (workforceUtilisation p) lastThreeMonthsIndividually) []))
       /\ (percentCell (june out) = "-"
           <-> Forall (fun m => month m <> "June")
                 (coalesce (chainOpt (workforceUtilisation p) lastThreeMonthsIndividually) []))
       /\ (percentCell (july out) = "-"
           <-> Forall (fun m => month m <> "July")
                 (coalesce (chainOpt (workforceUtilisation p) lastThreeMonthsIndividually) [])).
Proof.
  split; [reflexivity | exact (dash_iff_absent anaRecord eq_refl)].
Defined.

(** X13: a string with no numeric prefix is displayed as "NaN%" in a
    percentage cell, and in red in the net earnings cell. *)
Theorem unparseable_display (s : string) (Hs : hasNumericPrefix s = false) :
  percentCell (parseUtil (Some s)) = "NaN%"
  /\ earningsColor (coalesce (parseUtil (Some s)) zero) = "red".
Proof.
  apply parseFloat_nan_iff in Hs.
  cbn [parseUtil coalesce]. rewrite Hs. split; reflexivity.
Qed.

Lemma unparseable_display_witness :
  hasNumericPrefix "n/a" = false
  /\ percentCell (parseUtil (Some "n/a")) = "NaN%"
  /\ earningsColor (coalesce (parseUtil (Some "n/a")) zero) = "red".
Proof.
  split; [reflexivity | apply (unparseable_display "n/a"); reflexivity].
Defined.

Lemma twoDecimals_percent_check :
  forallb
    (fun n =>
       String.eqb (percentCell (parseUtil (Some (twoDecimals n))))
         (decimalString (Z.of_nat n) ++ "%"))
    (seq 0 1000)
  = true.
Proof. vm_compute. reflexivity. Qed.

(** X14: a rate written with two decimals, from "0.00" to "9.99", is
    displayed as exactly that many percent: the binary rounding of the
    parse and of the product by 100 never shows. *)
Theorem percentCell_two_decimals (n : nat) (Hn : (n < 1000)%nat) :
  percentCell (parseUtil (Some (twoDecimals n))) = decimalString (Z.of_nat n) ++ "%".
Proof.
  pose proof twoDecimals_percent_check as H.
  rewrite forallb_forall in H. apply String.eqb_eq, H.
  apply in_seq. lia.
Qed.

Lemma percentCell_two_decimals_witness :
  (29 < 1000)%nat
  /\ percentCell (parseUtil (Some (twoDecimals 29))) = decimalString (Z.of_nat 29) ++ "%".
Proof.
  split; [lia | apply (percentCell_two_decimals 29); lia].
Defined.

(** X15: in the net earnings cell, a text that starts with a numeral is
    green, and the same text behind a minus sign is red unless the numeral
    is worth zero. *)
Theorem earningsColor_by_sign
    (u : string) (Hu : headIsSpaceOrSign u = false) (Hp : hasNumericPrefix u = true) :
  earningsColor (parseFloat u) = "green"
  /\ earningsColor (parseFloat ("-" ++ u))
     = if isZero (parseFloat u) then "green" else "red".
Proof.
  assert (Hneg : parseFloat ("-" ++ u) = SFopp (parseFloat u)).
  { pose proof (parseUtil_sign_aux u Hu) as H. exact H. }
  assert (Hpos : SFleb zero (parseFloat u) = true).
  { unfold hasNumericPrefix in Hp. unfold parseFloat.
    rewrite (trimStart_plain u Hu), (scanSign_plain u Hu) in *. cbn [snd] in Hp.
    pose proof (strUnsignedDecimalLiteral_some u Hp) as Hs.
    destruct (strUnsignedDecimalLiteral u) as [[|m e]|]; try congruence.
    - reflexivity.
    - apply roundDecimal_nonneg. }
  rewrite Hneg. unfold earningsColor. rewrite Hpos. split; [reflexivity|].
  destruct (parseFloat u) as [s|s| |s m e]; try discriminate Hpos;
    try reflexivity; destruct s; try discriminate Hpos; reflexivity.
Qed.

Lemma earningsColor_by_sign_witness :
  (headIsSpaceOrSign "1250.5" = false /\ hasNumericPrefix "1250.5" = true)
  /\ earningsColor (parseFloat "1250.5") = "green"
  /\ earningsColor (parseFloat ("-" ++ "1250.5"))
     = if isZero (parseFloat "1250.5") then "green" else "red".
Proof.
  split; [split; reflexivity|].
  apply (earningsColor_by_sign "1250.5"); reflexivity.
Defined.

(** ** The component *)

Lemma handleEvents_invariant
    (sourceData : list SourceDataType) (rows : list TableDataType)
    (Hrows : data sourceData = Normal rows) (evs : list event) :
  forall st,
    (if loading st then True else tableData st = rows) ->
    exists st' saved,
      handleEvents sourceData st evs = Normal (st', saved)
      /\ Forall (fun d => d = handleExport rows) saved
      /\ (if loading st' then saved = [] /\ st' = st else tableData st' = rows).
Proof.
  induction evs as [|ev evs IH]; intros st Hst.
  - exists st, []. split; [reflexivity|]. split; [constructor|].
    destruct (loading st); [split; reflexivity | exact Hst].
  - cbn [handleEvents]. destruct ev; cbn [handleEvent].
    + unfold loadData. rewrite Hrows. cbn [bind fst snd].
      destruct (IH {| loading := false; tableData := rows |} eq_refl)
        as [st' [saved [Hrun [Hall Hfin]]]].
      rewrite Hrun. cbn [bind fst snd app].
      exists st', saved. split; [reflexivity|]. split; [exact Hall|].
      destruct (loading st') eqn:E; [|exact Hfin].
      destruct Hfin as [_ Heq]. rewrite Heq in E. discriminate E.
    + destruct (loading st) eqn:El; cbn [bind fst snd].
      * destruct (IH st) as [st' [saved [Hrun [Hall Hfin]]]];
          [rewrite El; exact I|].
        rewrite Hrun. cbn [bind fst snd app].
        exists st', saved. split; [reflexivity|]. split; [exact Hall | exact Hfin].
      * destruct (IH st) as [st' [saved [Hrun [Hall Hfin]]]];
          [rewrite El; exact Hst|].
        rewrite Hrun. cbn [bind fst snd app].
        exists st', (handleExport (tableData st) :: saved).
        split; [reflexivity|]. split; [constructor; [rewrite Hst; reflexivity | exact Hall]|].
        destruct (loading st') eqn:E; [|exact Hfin].
        destruct Hfin as [_ Heq]. rewrite Heq in E. congruence.
Qed.

(** X16: whatever the order of timer and clicks on the mounted component,
    nothing throws, every file handed to [saveAs] is the export of the
    normalised source data, and as long as the data is still loading no
    file has been saved and the table is empty; once loaded, the table
    holds the normalised Rows. *)
Theorem export_only_after_load
    (sourceData : list SourceDataType) (evs : list event) :
  exists rows st saved,
    data sourceData = Normal rows
    /\ handleEvents sourceData initialState evs = Normal (st, saved)
    /\ Forall (fun d => d = handleExport rows) saved
    /\ (if loading st
        then saved = [] /\ tableData st = []
        else tableData st = rows).
Proof.
  destruct (data_total sourceData) as [rows Hrows].
  destruct (handleEvents_invariant sourceData rows Hrows evs initialState I)
    as [st [saved [Hrun [Hall Hfin]]]].
  exists rows, st, saved. split; [exact Hrows|]. split; [exact Hrun|].
  split; [exact Hall|].
  destruct (loading st); [|exact Hfin].
  destruct Hfin as [Hs Heq]. split; [exact Hs | rewrite Heq; reflexivity].
Qed.

(** ** Rounding a value the format holds

    A value that the format holds exactly is rounded to itself, by the
    division of [roundRatio] and by [roundDecimal]; the digits that
    [Number::toString] searches for therefore round to the Number. *)

Section ExactRounding.
Local Open Scope Z_scope.

Lemma digits2_pos_size (p : positive) : digits2_pos p = Pos.size p.
Proof. induction p; simpl; congruence. Qed.

Lemma Zdigits2_log2 (p : positive) : Zdigits2 (Zpos p) = Z.log2 (Zpos p) + 1.
Proof.
  unfold Zdigits2. rewrite digits2_pos_size.
  destruct p; simpl; lia.
Qed.

Lemma Zdigits2_mul_pow2 (m : positive) (p : Z) :
  0 <= p -> Zdigits2 (Zpos m * 2 ^ p) = Zdigits2 (Zpos m) + p.
Proof.
  intros Hp.
  assert (H : 0 < Zpos m * 2 ^ p) by (apply Z.mul_pos_pos; [lia | apply Z.pow_pos_nonneg; lia]).
  destruct (Zpos m * 2 ^ p) as [|q|q] eqn:E; try lia.
  rewrite !Zdigits2_log2, <- E, Z.log2_mul_pow2 by lia. lia.
Qed.

Lemma shr_1_double (z : Z) :
  shr_1 {| shr_m := 2 * z; shr_r := false; shr_s := false |}
  = {| shr_m := z; shr_r := false; shr_s := false |}.
Proof. destruct z; reflexivity. Qed.

Lemma iter_pos_shr_1_exact (p : positive) :
  forall z,
    iter_pos shr_1 p {| shr_m := z * 2 ^ Zpos p; shr_r := false; shr_s := false |}
    = {| shr_m := z; shr_r := false; shr_s := false |}.
Proof.
  induction p as [p IH|p IH|]; intros z; cbn [iter_pos].
  - replace (z * 2 ^ Zpos p~1) with (2 * ((z * 2 ^ Zpos p) * 2 ^ Zpos p)).
    + rewrite shr_1_double, IH, IH. reflexivity.
    + replace (Zpos p~1) with (Zpos p + Zpos p + 1) by lia.
      rewrite !Z.pow_add_r by lia. change (2 ^ 1) with 2. ring.
  - replace (z * 2 ^ Zpos p~0) with ((z * 2 ^ Zpos p) * 2 ^ Zpos p).
    + rewrite IH, IH. reflexivity.
    + replace (Zpos p~0) with (Zpos p + Zpos p) by lia.
      rewrite !Z.pow_add_r by lia. ring.
  - rewrite Z.mul_comm. apply shr_1_double.
Qed.

Lemma canonical_fexp (m : positive) (e : Z) :
  canonical_mantissa prec emax m e = true ->
  fexp prec emax (Zdigits2 (Zpos m) + e) = e.
Proof.
  unfold canonical_mantissa. intros H. apply Z.eqb_eq in H. exact H.
Qed.

Lemma shr_fexp_canonical (m : positive) (e : Z) :
  canonical_mantissa prec emax m e = true ->
  shr_fexp prec emax (Zpos m) e loc_Exact
  = ({| shr_m := Zpos m; shr_r := false; shr_s := false |}, e).
Proof.
  intros H. unfold shr_fexp. rewrite (canonical_fexp m e H), Z.sub_diag.
  reflexivity.
Qed.

Lemma shr_fexp_exact (m : positive) (e p : Z) :
  canonical_mantissa prec emax m e = true -> 0 <= p ->
  shr_fexp prec emax (Zpos m * 2 ^ p) (e - p) loc_Exact
  = ({| shr_m := Zpos m; shr_r := false; shr_s := false |}, e).
Proof.
  intros H Hp. unfold shr_fexp.
  rewrite Zdigits2_mul_pow2 by exact Hp.
  replace (Zdigits2 (Zpos m) + p + (e - p)) with (Zdigits2 (Zpos m) + e) by lia.
  rewrite (canonical_fexp m e H).
  replace (e - (e - p)) with p by lia.
  cbn [shr_record_of_loc]. unfold shr.
  destruct p as [|pp|pp]; try lia.
  - rewrite Z.pow_0_r, Z.mul_1_r, Z.sub_0_r. reflexivity.
  - rewrite iter_pos_shr_1_exact. f_equal. lia.
Qed.

Lemma binary_round_aux_exact (m : positive) (e p : Z) :
  bounded prec emax m e = true -> 0 <= p ->
  binary_round_aux prec emax false (Zpos m * 2 ^ p) (e - p) loc_Exact
  = S754_finite false m e.
Proof.
  unfold bounded. intros H Hp. apply andb_true_iff in H. destruct H as [Hc Hb].
  unfold binary_round_aux. rewrite (shr_fexp_exact m e p Hc Hp).
  cbn [shr_m loc_of_shr_record round_nearest_even].
  rewrite (shr_fexp_canonical m e Hc). cbn [shr_m]. rewrite Hb. reflexivity.
Qed.

Lemma div_eucl_exact (q d : Z) : 0 < d -> Z.div_eucl (q * d) d = (q, 0).
Proof.
  intros Hd. pose proof (Z.div_mul q d) as H1. pose proof (Z.mod_mul q d) as H2.
  unfold Z.div, Z.modulo in H1, H2.
  destruct (Z.div_eucl (q * d) d) as [q' r']. cbn [fst snd] in *.
  rewrite H1, H2 by lia. reflexivity.
Qed.

Lemma new_location_zero (d : Z) : new_location d 0 = loc_Exact.
Proof. unfold new_location. destruct (Z.even d); reflexivity. Qed.

Lemma roundRatio_exact (n d m : positive) (e : Z) :
  bounded prec emax m e = true -> exactly n d m e ->
  roundRatio false n d = S754_finite false m e.
Proof.
  intros Hb Hx. unfold exactly in Hx. unfold roundRatio.
  set (sh := Z.max 0 (Zdigits2 (Zpos d) - Zdigits2 (Zpos n) + 55)).
  assert (Hm : Z.log2 (Zpos m) <= 52).
  { pose proof Hb as H. unfold bounded in H. apply andb_true_iff in H.
    destruct H as [Hc _]. apply canonical_fexp in Hc.
    unfold fexp in Hc. rewrite Zdigits2_log2 in Hc.
    change prec with 53 in Hc. lia. }
  assert (Hsh : 0 <= sh + e).
  { destruct (Z.le_gt_cases 0 e) as [He|He]; [lia|].
    rewrite (Z.max_r 0 (- e)), (Z.max_l 0 e), Z.pow_0_r, Z.mul_1_r in Hx by lia.
    assert (H1 : Z.log2 (Zpos n * 2 ^ (- e)) = - e + Z.log2 (Zpos n))
      by (apply Z.log2_mul_pow2; lia).
    assert (H2 : Z.log2 (Zpos m * Zpos d) <= Z.log2 (Zpos m) + Z.log2 (Zpos d) + 1)
      by (apply Z.log2_mul_above; lia).
    rewrite <- Hx, H1 in H2. unfold sh. rewrite !Zdigits2_log2. lia. }
  assert (Hq : Z.shiftl (Zpos n) sh = (Zpos m * 2 ^ (sh + e)) * Zpos d).
  { rewrite Z.shiftl_mul_pow2 by lia.
    destruct (Z.le_gt_cases 0 e) as [He|He].
    - rewrite (Z.max_l 0 (- e)), (Z.max_r 0 e), Z.pow_0_r, Z.mul_1_r in Hx by lia.
      rewrite Hx, Z.pow_add_r by lia. ring.
    - rewrite (Z.max_r 0 (- e)), (Z.max_l 0 e), Z.pow_0_r, Z.mul_1_r in Hx by lia.
      replace sh with (- e + (sh + e)) at 1 by lia.
      rewrite Z.pow_add_r by lia.
      rewrite Z.mul_assoc, Hx. ring. }
  rewrite Hq, div_eucl_exact by lia.
  rewrite new_location_zero.
  replace (- sh) with (e - (sh + e)) by lia.
  apply binary_round_aux_exact; assumption.
Qed.

Lemma binary_round_canonical (m : positive) (e : Z) :
  bounded prec emax m e = true ->
  binary_round prec emax false m e = S754_finite false m e.
Proof.
  intros Hb. pose proof Hb as H. unfold bounded in H.
  apply andb_true_iff in H. destruct H as [Hc _].
  unfold binary_round, shl_align.
  change (Zpos (digits2_pos m)) with (Zdigits2 (Zpos m)).
  rewrite (canonical_fexp m e Hc), Z.sub_diag.
  pose proof (binary_round_aux_exact m e 0 Hb (Z.le_refl 0)) as Hx.
  rewrite Z.pow_0_r, Z.mul_1_r, Z.sub_0_r in Hx. exact Hx.
Qed.

Lemma roundDecimal_exact (s E : Z) (m : positive) (e : Z) :
  bounded prec emax m e = true -> 0 < s -> decimalIs s E m e ->
  roundDecimal false (Z.to_N s) E = S754_finite false m e.
Proof.
  intros Hb Hs Hx. unfold decimalIs in Hx.
  destruct s as [|sp|sp]; try lia. cbn [Z.to_N roundDecimal].
  destruct E as [|k|k].
  - apply roundRatio_exact; [exact Hb|]. unfold exactly.
    cbn [Z.max Z.compare Z.opp] in Hx. rewrite Z.pow_0_r in Hx. lia.
  - apply roundRatio_exact; [exact Hb|]. unfold exactly.
    rewrite Pos2Z.inj_mul, Pos2Z.inj_pow.
    rewrite (Z.max_r 0 (Zpos k)), (Z.max_l 0 (- Zpos k)), Z.pow_0_r in Hx by lia.
    lia.
  - apply roundRatio_exact; [exact Hb|]. unfold exactly.
    rewrite Pos2Z.inj_pow.
    rewrite (Z.max_l 0 (Zneg k)), (Z.max_r 0 (- Zneg k)), Z.pow_0_r in Hx by lia.
    change (- Zneg k) with (Zpos k) in Hx. lia.
Qed.

Lemma SFcompare_refl_finite (m : positive) (e : Z) :
  SFcompare (S754_finite false m e) (S754_finite false m e) = Some Eq.
Proof.
  cbn [SFcompare]. rewrite Z.compare_refl.
  pose proof (Pos.compare_cont_refl m Eq) as H. rewrite H. reflexivity.
Qed.

Lemma SFcompare_eq_finite (y : number) (m : positive) (e : Z) :
  SFcompare y (S754_finite false m e) = Some Eq -> y = S754_finite false m e.
Proof.
  destruct y as [s|s| |s m' e']; cbn [SFcompare].
  - discriminate.
  - destruct s; discriminate.
  - discriminate.
  - destruct s; [discriminate|].
    destruct (Z.compare_spec e' e) as [He|He|He]; try discriminate.
    intros H. injection H as H.
    change (Pos.compare_cont Eq m' m) with (Pos.compare m' m) in H.
    apply Pos.compare_eq in H. subst. reflexivity.
Qed.

Lemma roundTrips_candidate (n k q : Z) (m : positive) (e : Z) :
  bounded prec emax m e = true -> 1 <= k -> n <= k -> 0 < q ->
  decimalIs q (n - k) m e ->
  roundTrips (S754_finite false m e) k (candidate k n q) = true.
Proof.
  intros Hb Hk Hn Hq Hx. unfold candidate.
  assert (Hgoal : forall s n', 0 < s -> decimalIs s (n' - k) m e ->
            roundTrips (S754_finite false m e) k (s, n') = true).
  { intros s n' Hs Hd. unfold roundTrips.
    rewrite (roundDecimal_exact s (n' - k) m e Hb Hs Hd), SFcompare_refl_finite.
    reflexivity. }
  destruct (Z.eqb_spec q (10 ^ k)) as [E|E]; [|apply Hgoal; assumption].
  apply Hgoal; [apply Z.pow_pos_nonneg; lia|].
  unfold decimalIs in *.
  assert (H10 : 10 ^ k = 10 * 10 ^ (k - 1)).
  { replace k with (1 + (k - 1)) at 1 by lia. rewrite Z.pow_add_r by lia. reflexivity. }
  rewrite E, H10 in Hx.
  rewrite (Z.max_l 0 (n - k)), Z.pow_0_r in Hx by lia.
  replace (Z.max 0 (- (n - k))) with (k - n) in Hx by lia.
  destruct (Z.eq_dec n k) as [->|Hne].
  - replace (k + 1 - k) with 1 by lia. cbn [Z.max Z.compare Z.opp].
    rewrite Z.sub_diag in Hx. rewrite Z.pow_0_r in *. change (10 ^ 1) with 10. lia.
  - rewrite (Z.max_l 0 (n + 1 - k)), Z.pow_0_r by lia.
    replace (Z.max 0 (- (n + 1 - k))) with (k - n - 1) by lia.
    replace (k - n) with (1 + (k - n - 1)) in Hx by lia.
    rewrite Z.pow_add_r in Hx by lia. change (10 ^ 1) with 10 in Hx.
    apply (Z.mul_reg_l _ _ 10); [lia|]. lia.
Qed.

Lemma pow10_split (j k : Z) : 0 <= k <= j -> 10 ^ j = 5 ^ k * 10 ^ (j - k) * 2 ^ k.
Proof.
  intros H. replace j with (k + (j - k)) at 1 by lia.
  rewrite Z.pow_add_r by lia. change 10 with (2 * 5) at 1.
  rewrite Z.pow_mul_l. ring.
Qed.

Lemma scaled_exact (m : positive) (e n k : Z) :
  n <= k -> - Z.min e 0 <= k - n ->
  exists q,
    scaled (fst (fraction m e)) (snd (fraction m e)) n k = (q, loc_Exact)
    /\ 0 < q /\ decimalIs q (n - k) m e.
Proof.
  intros Hn Hk. unfold scaled, decimalIs.
  apply Z.leb_le in Hn. rewrite Hn. apply Z.leb_le in Hn.
  rewrite (Z.max_l 0 (n - k)), Z.pow_0_r by lia.
  replace (Z.max 0 (- (n - k))) with (k - n) by lia.
  assert (H10 : 0 < 10 ^ (k - n)) by (apply Z.pow_pos_nonneg; lia).
  destruct e as [|pe|pe]; cbn [fraction fst snd].
  - exists (Zpos m * 10 ^ (k - n)).
    pose proof (div_eucl_exact (Zpos m * 10 ^ (k - n)) 1) as H.
    rewrite Z.mul_1_r in H. rewrite H by lia. rewrite new_location_zero.
    cbn [Z.max Z.compare Z.opp]. rewrite Z.pow_0_r.
    split; [reflexivity|]. split; [lia | ring].
  - exists (Zpos (m * 2 ^ pe) * 10 ^ (k - n)).
    pose proof (div_eucl_exact (Zpos (m * 2 ^ pe) * 10 ^ (k - n)) 1) as H.
    rewrite Z.mul_1_r in H. rewrite H by lia. rewrite new_location_zero.
    rewrite (Z.max_l 0 (- Zpos pe)), (Z.max_r 0 (Zpos pe)), Z.pow_0_r by lia.
    rewrite Pos2Z.inj_mul, Pos2Z.inj_pow.
    split; [reflexivity|]. split; [|ring].
    rewrite <- Pos2Z.inj_pow, <- Pos2Z.inj_mul. lia.
  - assert (Hpe : 0 <= Zpos pe <= k - n) by (cbn [Z.min Z.compare Z.opp] in Hk; lia).
    exists (Zpos m * (5 ^ Zpos pe * 10 ^ (k - n - Zpos pe))).
    assert (H5 : 0 < 5 ^ Zpos pe * 10 ^ (k - n - Zpos pe))
      by (apply Z.mul_pos_pos; apply Z.pow_pos_nonneg; lia).
    rewrite Pos2Z.inj_pow.
    replace (Zpos m * 10 ^ (k - n))
      with (Zpos m * (5 ^ Zpos pe * 10 ^ (k - n - Zpos pe)) * 2 ^ Zpos pe)
      by (rewrite (pow10_split (k - n) (Zpos pe) Hpe); ring).
    rewrite div_eucl_exact by (apply Z.pow_pos_nonneg; lia).
    rewrite new_location_zero.
    rewrite (Z.max_r 0 (- Zneg pe)), (Z.max_l 0 (Zneg pe)), Z.pow_0_r by lia.
    change (- Zneg pe) with (Zpos pe).
    split; [reflexivity|]. split; [lia|].
    rewrite (pow10_split (k - n) (Zpos pe) Hpe). ring.
Qed.

Lemma chooseDigits_sound (x : number) (a b n k : Z) (c : Z * Z) :
  chooseDigits x a b n k = Some c -> roundTrips x k c = true.
Proof.
  unfold chooseDigits. destruct (scaled a b n k) as [s l].
  destruct (roundTrips x k (candidate k n s)) eqn:Elo;
    destruct (roundTrips x k (candidate k n (s + 1))) eqn:Ehi;
    intros H; try discriminate H; injection H as <-; try assumption.
  destruct l as [|[]]; try assumption. destruct (Z.even s); assumption.
Qed.

Lemma chooseDigits_lo (x : number) (a b n k : Z) :
  roundTrips x k (candidate k n (fst (scaled a b n k))) = true ->
  chooseDigits x a b n k <> None.
Proof.
  unfold chooseDigits. destruct (scaled a b n k) as [s l]. cbn [fst].
  intros ->. destruct (roundTrips x k (candidate k n (s + 1))); discriminate.
Qed.

Lemma shortest_sound (x : number) (a b n kx : Z) :
  chooseDigits x a b n kx <> None ->
  forall fuel k,
    k <= kx <= k + Z.of_nat fuel ->
    exists k' s' n',
      shortest fuel x a b n k = (s', n' - k')
      /\ roundTrips x k' (s', n') = true.
Proof.
  intros Hx. induction fuel as [|f IH]; intros k Hk; cbn [shortest].
  - replace k with kx by lia.
    destruct (chooseDigits x a b n kx) as [[s' n']|] eqn:E; [|congruence].
    exists kx, s', n'. split; [reflexivity|].
    apply (chooseDigits_sound x a b n kx), E.
  - destruct (chooseDigits x a b n k) as [[s' n']|] eqn:E.
    + exists k, s', n'. split; [reflexivity|].
      apply (chooseDigits_sound x a b n k), E.
    + assert (k <> kx) by congruence. apply IH. lia.
Qed.

(** The digits found for a binary64 value denote a decimal that rounds to it. *)
Lemma shortest_rounds (m : positive) (e : Z) (a b n : Z) :
  bounded prec emax m e = true ->
  fraction m e = (a, b) ->
  exists d E,
    shortest (digitsBound n e) (binary_round prec emax false m e) a b n 1 = (d, E)
    /\ roundDecimal false (Z.to_N d) E = S754_finite false m e.
Proof.
  intros Hb Hf. rewrite (binary_round_canonical m e Hb).
  set (kx := Z.max 1 (n - Z.min e 0)).
  assert (Hn : n <= kx) by lia.
  assert (Hk : - Z.min e 0 <= kx - n) by lia.
  destruct (scaled_exact m e n kx Hn Hk) as [q [Hs [Hq Hd]]].
  rewrite Hf in Hs. cbn [fst snd] in Hs.
  assert (Hlo : chooseDigits (S754_finite false m e) a b n kx <> None).
  { apply chooseDigits_lo. rewrite Hs. cbn [fst].
    apply roundTrips_candidate; try assumption. lia. }
  destruct (shortest_sound _ a b n kx Hlo (digitsBound n e) 1) as [k' [s' [n' [Hsh Hrt]]]].
  { unfold digitsBound. lia. }
  exists s', (n' - k'). split; [exact Hsh|].
  unfold roundTrips in Hrt.
  destruct (SFcompare (roundDecimal false (Z.to_N s') (n' - k')) (S754_finite false m e))
    as [[]|] eqn:Ec; try discriminate Hrt.
  apply SFcompare_eq_finite, Ec.
Qed.

End ExactRounding.

(** ** Numerals and their values *)

Lemma string_length_app (a b : string) :
  String.length (a ++ b) = (String.length a + String.length b)%nat.
Proof.
  induction a as [|x a IH]; cbn [append String.length]; [reflexivity | rewrite IH; reflexivity].
Qed.

Lemma allDigits_allChars (s : string) : allDigits s = allChars isDigit s.
Proof.
  induction s as [|c s IH]; cbn [allDigits allChars]; [reflexivity | rewrite IH; reflexivity].
Qed.

Lemma allDigits_app (a b : string) : allDigits (a ++ b) = allDigits a && allDigits b.
Proof. rewrite !allDigits_allChars. apply allChars_app. Qed.

Lemma allDigits_substring (s : string) (n m : nat) :
  allDigits s = true -> allDigits (substring n m s) = true.
Proof. rewrite !allDigits_allChars. apply allChars_substring. Qed.

Lemma allDigits_zeros (j : nat) : allDigits (zeros j) = true.
Proof.
  induction j as [|j IH]; cbn [zeros allDigits]; [reflexivity | rewrite IH; reflexivity].
Qed.

Lemma allDigits_string_of_uint (u : Decimal.uint) :
  allDigits (NilEmpty.string_of_uint u) = true.
Proof.
  induction u as [|u IH|u IH|u IH|u IH|u IH|u IH|u IH|u IH|u IH|u IH];
    cbn [NilEmpty.string_of_uint allDigits]; try reflexivity;
    rewrite IH; reflexivity.
Qed.

Lemma decimalValueFrom_of_uint_acc (u : Decimal.uint) :
  forall acc,
    decimalValueFrom (Npos acc) (NilEmpty.string_of_uint u) = Npos (Pos.of_uint_acc u acc).
Proof.
  induction u as [|u IH|u IH|u IH|u IH|u IH|u IH|u IH|u IH|u IH|u IH];
    intros acc; cbn [NilEmpty.string_of_uint decimalValueFrom Pos.of_uint_acc];
    try reflexivity;
    match goal with
    | |- decimalValueFrom ?a _ = Npos (Pos.of_uint_acc _ ?b) =>
        replace a with (Npos b) by (digit_value; lia)
    end; apply IH.
Qed.

Lemma decimalValue_of_uint (u : Decimal.uint) :
  decimalValue (NilEmpty.string_of_uint u) = N.of_uint u.
Proof.
  unfold decimalValue, N.of_uint.
  induction u as [|u IH|u IH|u IH|u IH|u IH|u IH|u IH|u IH|u IH|u IH];
    cbn [NilEmpty.string_of_uint decimalValueFrom Pos.of_uint];
    try reflexivity; digit_value; cbn [N.mul N.add];
    first [exact IH | apply decimalValueFrom_of_uint_acc].
Qed.

Lemma decimalValue_decimalString (z : Z) : decimalValue (decimalString z) = Z.to_N z.
Proof.
  unfold decimalString. rewrite decimalValue_of_uint. apply Unsigned.of_to.
Qed.

Lemma allDigits_decimalString (z : Z) : allDigits (decimalString z) = true.
Proof. apply allDigits_string_of_uint. Qed.

Lemma decimalString_nonempty (z : Z) : (0 < String.length (decimalString z))%nat.
Proof.
  pose proof (decimalValue_decimalString z) as H.
  destruct (Z.to_N z) as [|p] eqn:E.
  - unfold decimalString. rewrite E. cbn. lia.
  - destruct (decimalString z); [discriminate H | cbn [String.length]; lia].
Qed.

Lemma decimalValueFrom_zeros (j : nat) :
  forall acc, decimalValueFrom acc (zeros j) = (acc * 10 ^ N.of_nat j)%N.
Proof.
  induction j as [|j IH]; intros acc; cbn [zeros decimalValueFrom].
  - cbn. lia.
  - rewrite IH. digit_value. rewrite Nat2N.inj_succ, N.pow_succ_r'. lia.
Qed.

Lemma substring_full (s : string) : substring 0 (String.length s) s = s.
Proof.
  induction s as [|c s IH]; cbn [String.length substring]; [reflexivity | rewrite IH; reflexivity].
Qed.

Lemma substring_split (s : string) :
  forall n, (n <= String.length s)%nat ->
    substring 0 n s ++ substring n (String.length s - n) s = s.
Proof.
  induction s as [|c s IH]; intros n Hn.
  - destruct n; reflexivity.
  - destruct n as [|n].
    + cbn [substring append]. rewrite Nat.sub_0_r.
      apply (substring_full (String c s)).
    + cbn [String.length] in Hn. cbn [substring append String.length Nat.sub].
      rewrite IH by lia. reflexivity.
Qed.

Lemma substring_prefix_length (s : string) :
  forall n, (n <= String.length s)%nat -> String.length (substring 0 n s) = n.
Proof.
  induction s as [|c s IH]; intros n Hn.
  - destruct n; [reflexivity | cbn [String.length] in Hn; lia].
  - destruct n as [|n]; [reflexivity|].
    cbn [String.length] in Hn. cbn [substring String.length].
    rewrite IH by lia. reflexivity.
Qed.

Lemma substring_suffix_length (s : string) (n : nat) :
  (n <= String.length s)%nat ->
  String.length (substring n (String.length s - n) s) = (String.length s - n)%nat.
Proof.
  intros Hn. pose proof (substring_split s n Hn) as H.
  apply (f_equal String.length) in H.
  rewrite string_length_app, substring_prefix_length in H by exact Hn. lia.
Qed.

Lemma prefix_Infinity_digit (c : ascii) (u : string) :
  isDigit c = true -> String.prefix "Infinity" (String c u) = false.
Proof.
  intros Hc. destruct (isDigit_plain c Hc) as [_ [_ [_ [Hi _]]]].
  cbn [String.prefix].
  destruct (ascii_dec "I"%char c) as [<-|_]; [discriminate Hi | reflexivity].
Qed.

Lemma strUnsignedDecimalLiteral_integer_exp (ip rest : string) :
  allDigits ip = true -> (0 < String.length ip)%nat ->
  headIsDigit rest = false -> headIsDot rest = false ->
  strUnsignedDecimalLiteral (ip ++ rest)
  = Some (LitDecimal (decimalValue ip) (scanExponent rest)).
Proof.
  intros Hip Hne Hd Hdot.
  destruct ip as [|c ip']; [cbn [String.length] in Hne; lia|].
  pose proof Hip as Hc. cbn [allDigits] in Hc. apply andb_true_iff in Hc.
  destruct Hc as [Hc _].
  unfold strUnsignedDecimalLiteral.
  change (String c ip' ++ rest) with (String c (ip' ++ rest)) at 1.
  rewrite (prefix_Infinity_digit c _ Hc).
  rewrite (scanDigits_allDigits (String c ip') rest 0 0 Hip Hd).
  unfold headIsDot in Hdot. destruct (afterChar "." rest); [discriminate|].
  assert (Hn : ((0 + N.of_nat (String.length (String c ip')) =? 0)%N = false))
    by (apply N.eqb_neq; cbn [String.length]; lia).
  rewrite Hn. reflexivity.
Qed.

Lemma strUnsignedDecimalLiteral_decimal_exp (ip fp rest : string) :
  allDigits ip = true -> (0 < String.length ip)%nat -> allDigits fp = true ->
  headIsDigit rest = false ->
  strUnsignedDecimalLiteral (ip ++ "." ++ fp ++ rest)
  = Some (LitDecimal (decimalValue (ip ++ fp))
            (scanExponent rest - Z.of_nat (String.length fp))).
Proof.
  intros Hip Hne Hfp Hd.
  destruct ip as [|c ip']; [cbn [String.length] in Hne; lia|].
  pose proof Hip as Hc. cbn [allDigits] in Hc. apply andb_true_iff in Hc.
  destruct Hc as [Hc _].
  unfold strUnsignedDecimalLiteral.
  change (String c ip' ++ "." ++ fp ++ rest)
    with (String c (ip' ++ "." ++ fp ++ rest)) at 1.
  rewrite (prefix_Infinity_digit c _ Hc).
  rewrite (scanDigits_allDigits (String c ip') ("." ++ fp ++ rest) 0 0 Hip eq_refl).
  cbn [append afterChar]. change (Ascii.eqb "." ".") with true. cbv iota.
  rewrite (scanDigits_allDigits fp rest _ 0 Hfp Hd).
  assert (Hn : ((0 + N.of_nat (String.length (String c ip')) =? 0)%N = false))
    by (apply N.eqb_neq; cbn [String.length]; lia).
  rewrite Hn. cbn [andb]. unfold decimalValue.
  change (String c (ip' ++ fp)) with (String c ip' ++ fp).
  rewrite decimalValueFrom_app. f_equal. f_equal. lia.
Qed.

Lemma scanExponent_written (negative : bool) (z : Z) :
  (0 <= z)%Z ->
  scanExponent ("e" ++ (if negative then "-" else "+") ++ decimalString z)
  = if negative then (- z)%Z else z.
Proof.
  intros Hz.
  assert (Hs : scanDigits 0 0 (decimalString z)
               = (Z.to_N z, (0 + N.of_nat (String.length (decimalString z)))%N, "")).
  { rewrite <- (string_app_nil_r (decimalString z)) at 1.
    rewrite (scanDigits_allDigits _ "" 0 0 (allDigits_decimalString z) eq_refl).
    fold (decimalValue (decimalString z)). rewrite decimalValue_decimalString.
    reflexivity. }
  pose proof (decimalString_nonempty z) as Hl.
  assert (Hn : ((0 + N.of_nat (String.length (decimalString z)) =? 0)%N = false))
    by (apply N.eqb_neq; lia).
  destruct negative; cbn [append scanExponent];
    change (isExponentIndicator "e") with true; cbv iota;
    unfold scanSign; cbn [afterChar].
  - change (Ascii.eqb "-" "-") with true. cbv iota. rewrite Hs, Hn. lia.
  - change (Ascii.eqb "+" "-") with false. change (Ascii.eqb "+" "+") with true.
    cbv iota. rewrite Hs, Hn. lia.
Qed.

Lemma roundDecimal_shift (s : bool) (v : N) (j : Z) :
  (0 <= j)%Z ->
  roundDecimal s (v * 10 ^ Z.to_N j) 0 = roundDecimal s v j.
Proof.
  intros Hj. destruct v as [|p]; [reflexivity|].
  destruct j as [|q|q]; try lia.
  - cbn [Z.to_N]. rewrite N.pow_0_r, N.mul_1_r. reflexivity.
  - reflexivity.
Qed.

Lemma parseFloat_head_digit (t : string) :
  headIsDigit t = true ->
  parseFloat t
  = match strUnsignedDecimalLiteral t with
    | None => NaN
    | Some LitInfinity => Infinity false
    | Some (LitDecimal m e) => roundDecimal false m e
    end.
Proof.
  destruct t as [|c u]; [discriminate|]. apply parseFloat_digit_head.
Qed.

Lemma headIsDigit_app (a b : string) :
  headIsDigit a = true -> headIsDigit (a ++ b) = true.
Proof. destruct a; [discriminate | intros H; exact H]. Qed.

Lemma headIsDigit_allDigits (ds : string) :
  allDigits ds = true -> (0 < String.length ds)%nat -> headIsDigit ds = true.
Proof.
  destruct ds as [|c r]; cbn [String.length allDigits headIsDigit]; [lia|].
  intros H _. apply andb_true_iff in H. apply H.
Qed.

Lemma layout_readsAs (ds : string) (n : Z) :
  allDigits ds = true -> (0 < String.length ds)%nat ->
  readsAs (layout ds (Z.of_nat (String.length ds)) n) (decimalValue ds)
    (n - Z.of_nat (String.length ds)).
Proof.
  intros Hd HL. set (L := String.length ds) in *. set (k := Z.of_nat L).
  pose proof (headIsDigit_allDigits ds Hd HL) as Hh.
  unfold layout, readsAs.
  destruct ((k <=? n)%Z && (n <=? 21)%Z) eqn:CA.
  { apply andb_true_iff in CA. destruct CA as [CA _]. apply Z.leb_le in CA.
    split; [apply headIsDigit_app, Hh|].
    set (j := Z.to_nat (n - k)).
    rewrite <- (string_app_nil_r (ds ++ zeros j)).
    rewrite strUnsignedDecimalLiteral_integer_exp; try reflexivity.
    - eexists _, _. split; [reflexivity|]. intros s. cbn [scanExponent].
      unfold decimalValue. rewrite decimalValueFrom_app, decimalValueFrom_zeros.
      fold (decimalValue ds). unfold j. rewrite Z_nat_N.
      apply roundDecimal_shift. lia.
    - rewrite allDigits_app, Hd, allDigits_zeros. reflexivity.
    - rewrite string_length_app. lia. }
  destruct ((0 <? n)%Z && (n <=? 21)%Z) eqn:CB.
  { apply andb_true_iff in CB. destruct CB as [CB CB'].
    apply Z.ltb_lt in CB. apply Z.leb_le in CB'.
    assert (Hnk : (n < k)%Z).
    { apply andb_false_iff in CA. destruct CA as [CA|CA]; apply Z.leb_gt in CA; lia. }
    set (n' := Z.to_nat n).
    assert (Hn' : (n' <= L)%nat) by (unfold n', k in *; lia).
    replace (Z.to_nat (k - n)) with (L - n')%nat by (unfold n', k; lia).
    pose proof (substring_split ds n' Hn') as Hsplit. fold L in Hsplit.
    pose proof (substring_prefix_length ds n' Hn') as Hl1.
    pose proof (substring_suffix_length ds n' Hn') as Hl2. fold L in Hl2.
    split.
    { apply headIsDigit_app, headIsDigit_allDigits;
        [apply allDigits_substring, Hd | rewrite Hl1; unfold n'; lia]. }
    replace (substring 0 n' ds ++ "." ++ substring n' (L - n') ds)
      with (substring 0 n' ds ++ "." ++ substring n' (L - n') ds ++ "")
      by (rewrite string_app_nil_r; reflexivity).
    rewrite strUnsignedDecimalLiteral_decimal_exp;
      [|apply allDigits_substring, Hd | rewrite Hl1; unfold n'; lia
       |apply allDigits_substring, Hd | reflexivity].
    eexists _, _. split; [reflexivity|]. intros s.
    rewrite Hsplit, Hl2. cbn [scanExponent]. f_equal. unfold n', k. lia. }
  destruct ((-6 <? n)%Z && (n <=? 0)%Z) eqn:CC.
  { apply andb_true_iff in CC. destruct CC as [_ CC]. apply Z.leb_le in CC.
    split; [reflexivity|].
    set (j := Z.to_nat (- n)).
    change ("0." ++ zeros j ++ ds) with ("0" ++ "." ++ (zeros j ++ ds)).
    replace ("0" ++ "." ++ (zeros j ++ ds))
      with ("0" ++ "." ++ (zeros j ++ ds) ++ "")
      by (rewrite string_app_nil_r; reflexivity).
    rewrite strUnsignedDecimalLiteral_decimal_exp;
      [|reflexivity | cbn [String.length]; lia
       |rewrite allDigits_app, allDigits_zeros, Hd; reflexivity | reflexivity].
    eexists _, _. split; [reflexivity|]. intros s. cbn [scanExponent].
    assert (Hv : decimalValue ("0" ++ zeros j ++ ds) = decimalValue ds).
    { unfold decimalValue. cbn [append decimalValueFrom].
      rewrite decimalValueFrom_app, decimalValueFrom_zeros. reflexivity. }
    rewrite Hv, string_length_app. f_equal.
    assert (Hz : String.length (zeros j) = j).
    { clear. induction j as [|j IH]; cbn [zeros String.length]; [reflexivity | rewrite IH; reflexivity]. }
    rewrite Hz. unfold j, k. fold L. lia. }
  cbv zeta.
  set (rest := "e" ++ (if (n - 1 <? 0)%Z then "-" else "+") ++ decimalString (Z.abs (n - 1))).
  assert (Hrest : scanExponent rest = (n - 1)%Z).
  { unfold rest. rewrite scanExponent_written by lia.
    destruct (Z.ltb_spec (n - 1) 0); lia. }
  assert (Hrd : headIsDigit rest = false) by reflexivity.
  assert (Hrdot : headIsDot rest = false) by reflexivity.
  destruct (k =? 1)%Z eqn:Ek.
  { apply Z.eqb_eq in Ek.
    split; [apply headIsDigit_app, Hh|].
    rewrite strUnsignedDecimalLiteral_integer_exp by assumption.
    eexists _, _. split; [reflexivity|]. intros s. rewrite Hrest. f_equal. lia. }
  apply Z.eqb_neq in Ek.
  assert (H1 : (1 <= L)%nat) by lia.
  replace (Z.to_nat (k - 1)) with (L - 1)%nat by (unfold k; lia).
  pose proof (substring_split ds 1 H1) as Hsplit. fold L in Hsplit.
  pose proof (substring_prefix_length ds 1 H1) as Hl1.
  pose proof (substring_suffix_length ds 1 H1) as Hl2. fold L in Hl2.
  split.
  { rewrite string_app_assoc. apply headIsDigit_app, headIsDigit_allDigits;
      [apply allDigits_substring, Hd | rewrite Hl1; lia]. }
  rewrite !string_app_assoc.
  rewrite strUnsignedDecimalLiteral_decimal_exp;
    [|apply allDigits_substring, Hd | rewrite Hl1; lia
     |apply allDigits_substring, Hd | exact Hrd].
  eexists _, _. split; [reflexivity|]. intros s.
  rewrite Hsplit, Hl2, Hrest. f_equal. unfold k. lia.
Qed.

(** ** The text of a Number, read back *)

Lemma headIsDigit_plain (u : string) :
  headIsDigit u = true -> headIsSpaceOrSign u = false.
Proof.
  destruct u as [|c u]; cbn [headIsDigit headIsSpaceOrSign]; [discriminate|].
  intros H. destruct (isDigit_plain c H) as [Hw [Hm [Hp _]]].
  rewrite Hw, Hm, Hp. reflexivity.
Qed.

Lemma parseFloat_readsAs (t : string) (v : N) (E : Z) (s : bool) :
  readsAs t v E ->
  parseFloat ((if s then "-" else "") ++ t) = roundDecimal s v E.
Proof.
  intros [Hh [m [E' [Hlit Hr]]]].
  assert (Hpos : parseFloat t = roundDecimal false v E).
  { rewrite (parseFloat_head_digit t Hh), Hlit. apply Hr. }
  destruct s; cbn [append]; [|exact Hpos].
  change (String "-" t) with ("-" ++ t).
  rewrite (parseUtil_sign_aux t (headIsDigit_plain t Hh)), Hpos.
  symmetry. apply roundDecimal_opp.
Qed.

Lemma sameValueZero_refl_finite (s : bool) (m : positive) (e : Z) :
  sameValueZero (S754_finite s m e) (S754_finite s m e) = true.
Proof.
  cbn [sameValueZero]. unfold SFeqb. cbn [SFcompare].
  rewrite Z.compare_refl.
  change (Pos.compare_cont Eq m m) with (Pos.compare m m).
  rewrite Pos.compare_refl. destruct s; reflexivity.
Qed.

(** The text of a Number reads back as the Number. *)
Lemma Number_toString_reads_back (x : number) :
  isNumber x = true ->
  sameValueZero (parseFloat (Number_toString x)) x = true.
Proof.
  intros Hx. destruct x as [s|s| |s m e].
  - destruct s; reflexivity.
  - destruct s; reflexivity.
  - reflexivity.
  - unfold isNumber in Hx. cbn [valid_binary] in Hx.
    cbn [Number_toString].
    destruct (fraction m e) as [a b] eqn:Hf.
    destruct (shortest_rounds m e a b (decimalExponent a b) Hx Hf) as [d [E [Hsh Hr]]].
    rewrite Hsh.
    pose proof (layout_readsAs (decimalString d)
                  (E + Z.of_nat (String.length (decimalString d)))
                  (allDigits_decimalString d) (decimalString_nonempty d)) as Hl.
    rewrite (parseFloat_readsAs _ _ _ s Hl), decimalValue_decimalString.
    replace (E + Z.of_nat (String.length (decimalString d))
             - Z.of_nat (String.length (decimalString d)))%Z with E by lia.
    destruct s.
    + rewrite roundDecimal_opp, Hr. apply sameValueZero_refl_finite.
    + rewrite Hr. apply sameValueZero_refl_finite.
Qed.

(** ** The parser builds Numbers *)

Section ValidRounding.
Local Open Scope Z_scope.

Lemma shr_1_div2 (mrs : shr_record) :
  0 <= shr_m mrs -> shr_m (shr_1 mrs) = shr_m mrs / 2.
Proof.
  destruct mrs as [m r t]. cbn [shr_m shr_1]. intros H.
  destruct m as [|[q|q|]|q]; cbn [shr_m]; try lia; try reflexivity.
  - apply (Z.div_unique _ 2 _ 1); lia.
  - apply (Z.div_unique _ 2 _ 0); lia.
Qed.

Lemma iter_pos_shr_1_div (p : positive) :
  forall mrs, 0 <= shr_m mrs ->
    shr_m (iter_pos shr_1 p mrs) = shr_m mrs / 2 ^ Zpos p.
Proof.
  induction p as [p IH|p IH|]; intros mrs H; cbn [iter_pos].
  - rewrite IH, IH, shr_1_div2 by
      (try apply iter_pos_shr_1_nonneg; try apply shr_1_nonneg; exact H).
    rewrite !Z.div_div by
      first [apply Z.pow_pos_nonneg; lia | apply Z.pow_nonzero; lia | lia].
    f_equal. replace (Zpos p~1) with (1 + Zpos p + Zpos p) by lia.
    rewrite !Z.pow_add_r by lia. change (2 ^ 1) with 2. ring.
  - rewrite IH, IH by (try apply iter_pos_shr_1_nonneg; exact H).
    rewrite Z.div_div by
      first [apply Z.pow_pos_nonneg; lia | apply Z.pow_nonzero; lia | lia].
    f_equal. replace (Zpos p~0) with (Zpos p + Zpos p) by lia.
    rewrite Z.pow_add_r by lia. reflexivity.
  - rewrite shr_1_div2 by exact H. reflexivity.
Qed.

Lemma Zdigits2_nonneg_log2 (z : Z) : 0 < z -> Zdigits2 z = Z.log2 z + 1.
Proof. destruct z as [|p|p]; try lia. intros _. apply Zdigits2_log2. Qed.

(** First step of the rounding: the mantissa is divided by the power of two
    that brings the exponent to [fexp]. *)
Lemma shr_fexp_div (m e : Z) (l : location) :
  0 <= m -> 0 <= fexp prec emax (Zdigits2 m + e) - e ->
  shr_m (fst (shr_fexp prec emax m e l))
  = m / 2 ^ (fexp prec emax (Zdigits2 m + e) - e)
  /\ snd (shr_fexp prec emax m e l) = fexp prec emax (Zdigits2 m + e).
Proof.
  intros Hm Hn. unfold shr_fexp, shr.
  assert (H0 : shr_m (shr_record_of_loc m l) = m) by (destruct l as [|[]]; reflexivity).
  destruct (fexp prec emax (Zdigits2 m + e) - e) as [|p|p] eqn:E; try lia; cbn [fst snd].
  - rewrite H0, Z.pow_0_r, Z.div_1_r. split; [reflexivity | lia].
  - rewrite iter_pos_shr_1_div by (rewrite H0; exact Hm). rewrite H0.
    split; [reflexivity | lia].
Qed.

Lemma Zdigits2_div_pow2 (m n : Z) :
  0 <= n -> 0 < m / 2 ^ n -> Zdigits2 (m / 2 ^ n) = Zdigits2 m - n.
Proof.
  intros Hn Hq.
  assert (Hm : 0 < m).
  { destruct (Z.le_gt_cases m 0) as [H|H]; [|exact H]. exfalso.
    assert (m / 2 ^ n <= 0).
    { apply Z.div_le_upper_bound; [apply Z.pow_pos_nonneg; lia|].
      rewrite Z.mul_0_r. exact H. }
    lia. }
  rewrite !Zdigits2_nonneg_log2 by assumption.
  rewrite <- Z.shiftr_div_pow2 by lia. rewrite Z.log2_shiftr by lia.
  assert (n <= Z.log2 m).
  { destruct (Z.le_gt_cases n (Z.log2 m)) as [H|H]; [exact H|].
    exfalso. rewrite Z.div_small in Hq; [lia|].
    split; [lia|]. apply Z.log2_lt_pow2; lia. }
  lia.
Qed.

Lemma canonical_after_shift (m e : Z) :
  0 <= fexp prec emax (Zdigits2 m + e) - e ->
  forall p, m / 2 ^ (fexp prec emax (Zdigits2 m + e) - e) = Zpos p ->
  canonical_mantissa prec emax p (fexp prec emax (Zdigits2 m + e)) = true.
Proof.
  intros Hn p Hp. unfold canonical_mantissa. apply Z.eqb_eq.
  change (Zpos (digits2_pos p)) with (Zdigits2 (Zpos p)).
  rewrite <- Hp, Zdigits2_div_pow2 by lia.
  f_equal. lia.
Qed.

Lemma fexp_mono (a b : Z) : a <= b -> fexp prec emax a <= fexp prec emax b.
Proof. unfold fexp. lia. Qed.

Lemma Zdigits2_mono (a b : Z) : 0 <= a <= b -> Zdigits2 a <= Zdigits2 b.
Proof.
  intros [Ha Hab]. destruct (Z.eq_dec a 0) as [->|Hne].
  - destruct b; cbn [Zdigits2]; lia.
  - rewrite !Zdigits2_nonneg_log2 by lia.
    pose proof (Z.log2_le_mono a b Hab). lia.
Qed.

Lemma round_nearest_even_bounds (m : Z) (l : location) :
  m <= round_nearest_even m l <= m + 1.
Proof.
  unfold round_nearest_even. destruct l as [|[]]; try lia.
  destruct (Z.even m); lia.
Qed.

Lemma binary_round_aux_valid (s : bool) (m e : Z) (l : location) :
  0 <= m -> 0 <= fexp prec emax (Zdigits2 m + e) - e ->
  valid_binary prec emax (binary_round_aux prec emax s m e l) = true.
Proof.
  intros Hm Hn. unfold binary_round_aux.
  destruct (shr_fexp_div m e l Hm Hn) as [H1 H1'].
  destruct (shr_fexp prec emax m e l) as [mrs' e']. cbn [fst snd] in H1, H1'.
  set (n1 := fexp prec emax (Zdigits2 m + e) - e) in *.
  set (m1 := round_nearest_even (shr_m mrs') (loc_of_shr_record mrs')).
  pose proof (round_nearest_even_bounds (shr_m mrs') (loc_of_shr_record mrs')) as Hb.
  fold m1 in Hb.
  assert (Hm' : 0 <= shr_m mrs').
  { rewrite H1. apply Z.div_pos; [exact Hm | apply Z.pow_pos_nonneg; lia]. }
  assert (Hn2 : 0 <= fexp prec emax (Zdigits2 m1 + e') - e').
  { destruct (Z.eq_dec (shr_m mrs') 0) as [Hz|Hnz].
    - assert (He' : e' = SpecFloat.emin prec emax).
      { rewrite H1'. destruct (Z.eq_dec m 0) as [->|Hmz].
        - cbn [Zdigits2] in *. unfold n1 in *. fexp_lia.
        - assert (Hge : Z.log2 m < n1).
          { destruct (Z.le_gt_cases n1 (Z.log2 m)) as [H|H]; [|lia]. exfalso.
            assert (0 < m / 2 ^ n1); [|lia].
            apply Z.div_str_pos. split; [apply Z.pow_pos_nonneg; lia|].
            apply Z.le_trans with (2 ^ Z.log2 m);
              [apply Z.pow_le_mono_r; lia | apply Z.log2_spec; lia]. }
          pose proof (Zdigits2_nonneg_log2 m ltac:(lia)) as Hdig.
          unfold n1 in *. fexp_lia. }
      assert (Hd : Zdigits2 m1 <= 1).
      { assert (H01 : m1 = 0 \/ m1 = 1) by lia.
        destruct H01 as [-> | ->]; cbn; lia. }
      assert (0 <= Zdigits2 m1) by (destruct m1; cbn [Zdigits2]; lia).
      rewrite He'. fexp_lia.
    - assert (Hc : fexp prec emax (Zdigits2 (shr_m mrs') + e') = e').
      { rewrite H1, Zdigits2_div_pow2 by (fold n1; lia).
        rewrite H1'. f_equal. fold n1. unfold n1. lia. }
      pose proof (Zdigits2_mono (shr_m mrs') m1) as Hmono.
      pose proof (fexp_mono (Zdigits2 (shr_m mrs') + e') (Zdigits2 m1 + e')) as Hf.
      lia. }
  assert (Hm1 : 0 <= m1) by lia.
  destruct (shr_fexp_div m1 e' loc_Exact Hm1 Hn2) as [H2 H2'].
  destruct (shr_fexp prec emax m1 e' loc_Exact) as [mrs'' e'']. cbn [fst snd] in H2, H2'.
  destruct (shr_m mrs'') as [|p|p] eqn:Ep; try reflexivity.
  destruct (e'' <=? emax - prec) eqn:Ee; [|reflexivity].
  cbn [valid_binary]. unfold bounded. rewrite Ee, andb_true_r.
  rewrite H2'. apply (canonical_after_shift m1 e' Hn2). symmetry. exact H2.
Qed.

Lemma roundRatio_valid (s : bool) (n d : positive) :
  valid_binary prec emax (roundRatio s n d) = true.
Proof.
  unfold roundRatio.
  set (sh := Z.max 0 (Zdigits2 (Zpos d) - Zdigits2 (Zpos n) + 55)).
  pose proof (Z.div_pos (Z.shiftl (Zpos n) sh) (Zpos d)) as Hq0.
  assert (Hq : 2 ^ 54 <= Z.shiftl (Zpos n) sh / Zpos d).
  { apply Z.div_le_lower_bound; [lia|].
    rewrite Z.shiftl_mul_pow2 by lia.
    assert (Hd : Zpos d < 2 ^ (Z.log2 (Zpos d) + 1))
      by (apply Z.log2_spec; lia).
    assert (Hn : 2 ^ Z.log2 (Zpos n) <= Zpos n) by (apply Z.log2_spec; lia).
    assert (Hs : Z.log2 (Zpos d) + 1 + 54 <= Z.log2 (Zpos n) + sh).
    { unfold sh. rewrite !Zdigits2_log2. lia. }
    assert (Hld : 0 <= Z.log2 (Zpos d)) by apply Z.log2_nonneg.
    assert (Hln : 0 <= Z.log2 (Zpos n)) by apply Z.log2_nonneg.
    assert (Hp : 2 ^ (Z.log2 (Zpos d) + 1 + 54) <= 2 ^ (Z.log2 (Zpos n) + sh))
      by (apply Z.pow_le_mono_r; lia).
    rewrite (Z.pow_add_r 2 (Z.log2 (Zpos d) + 1) 54) in Hp by lia.
    rewrite (Z.pow_add_r 2 (Z.log2 (Zpos n)) sh) in Hp by lia.
    assert (H54 : 0 < 2 ^ 54) by (apply Z.pow_pos_nonneg; lia).
    assert (Hsh : 0 < 2 ^ sh) by (apply Z.pow_pos_nonneg; lia).
    assert (HD : Zpos d * 2 ^ 54 <= 2 ^ (Z.log2 (Zpos d) + 1) * 2 ^ 54)
      by (apply Z.mul_le_mono_nonneg_r; lia).
    assert (HN : 2 ^ Z.log2 (Zpos n) * 2 ^ sh <= Zpos n * 2 ^ sh)
      by (apply Z.mul_le_mono_nonneg_r; lia).
    lia. }
  unfold Z.div in Hq, Hq0.
  destruct (Z.div_eucl (Z.shiftl (Zpos n) sh) (Zpos d)) as [q r]. cbn [fst] in Hq, Hq0.
  assert (Hpos : 0 < q) by (assert (0 < 2 ^ 54) by (apply Z.pow_pos_nonneg; lia); lia).
  apply binary_round_aux_valid; [lia|].
  assert (Hl : 54 <= Z.log2 q) by (apply Z.log2_le_pow2; lia).
  rewrite (Zdigits2_nonneg_log2 q Hpos). fexp_lia.
Qed.

Lemma roundDecimal_valid (s : bool) (m : N) (e : Z) :
  valid_binary prec emax (roundDecimal s m e) = true.
Proof.
  unfold roundDecimal. destruct m as [|p]; [reflexivity|].
  destruct e; apply roundRatio_valid.
Qed.

(** [parseFloat] always answers a binary64 value. *)
Lemma parseFloat_isNumber (s : string) : isNumber (parseFloat s) = true.
Proof.
  unfold isNumber, parseFloat.
  destruct (scanSign (trimStart s)) as [negative u].
  destruct (strUnsignedDecimalLiteral u) as [[|m e]|]; try reflexivity.
  apply roundDecimal_valid.
Qed.

End ValidRounding.

(** ** The rows hold Numbers *)

Lemma parseUtil_isNumber (val : option string) :
  isNumberOpt (parseUtil val) = true.
Proof.
  destruct val as [v|]; cbn [parseUtil isNumberOpt];
    [apply parseFloat_isNumber | reflexivity].
Qed.

Lemma getMonthUtil_isNumber (util : option WorkforceUtilisation) (name : string) :
  isNumberOpt (getMonthUtil util name) = true.
Proof. apply parseUtil_isNumber. Qed.

Lemma loadData_map_wellFormed (row : SourceDataType) (out : TableDataType) :
  loadData_map row = Normal out -> wellFormedRow out = true.
Proof.
  unfold loadData_map.
  destruct (if strictEq _ _ then _ else _) as [name|e]; cbn [bind]; [|discriminate].
  intro H. injection H as <-.
  unfold wellFormedRow.
  cbn [past12Months y2d may june july netEarningsPrevMonth].
  rewrite !parseUtil_isNumber, !getMonthUtil_isNumber. cbn [andb].
  destruct (chainOpt _ monthlyCostDifference) as [s|]; cbn [parseUtil coalesce];
    [apply parseFloat_isNumber | reflexivity].
Qed.

(** Every Row of the normalisation pass holds Numbers or [undefined]. *)
Lemma data_wellFormed (sourceData : list SourceDataType) (rows : list TableDataType) :
  data sourceData = Normal rows -> forallb wellFormedRow rows = true.
Proof.
  intro H. destruct (data_rows sourceData) as (rows' & H' & HF).
  rewrite H in H'. injection H' as <-.
  clear H. induction HF as [|row out l l' Hrow HF IH]; [reflexivity|].
  cbn [forallb]. rewrite (loadData_map_wellFormed _ _ Hrow), IH. reflexivity.
Qed.

(** ** The export of the rows *)

Lemma writes_rawField (v : option number) :
  isNumberOpt v = true -> writes v (rawField v).
Proof.
  destruct v as [x|]; cbn [isNumberOpt writes rawField]; [|reflexivity].
  intro H. split; [apply allChars_Number_toString|].
  split; [apply Number_toString_reads_back; exact H|].
  apply (rawField_not_percentCell (Some x)).
Qed.

Lemma exportsRow_line (r : TableDataType) :
  wellFormedRow r = true ->
  exportsRow r
    (String.concat (String Papa.delimiter "")
       (map (fun f => Papa.safe (Papa.get f (properties r)))
          ["person"; "past12Months"; "y2d"; "may"; "june"; "july";
           "netEarningsPrevMonth"])).
Proof.
  intro H. unfold wellFormedRow in H.
  repeat (apply andb_true_iff in H; destruct H as [H ?]).
  exists (Papa.safe (CellString (person r))),
    (rawField (past12Months r)), (rawField (y2d r)), (rawField (may r)),
    (rawField (june r)), (rawField (july r)),
    (rawField (Some (netEarningsPrevMonth r))).
  split; [exact (unparse_line r)|].
  repeat (split; [apply writes_rawField; assumption|]).
  apply (writes_rawField (Some (netEarningsPrevMonth r))). assumption.
Qed.

Lemma exportsRow_lines (rows : list TableDataType) :
  forallb wellFormedRow rows = true ->
  Forall2 exportsRow rows
    (map (fun r =>
            String.concat (String Papa.delimiter "")
              (map (fun f => Papa.safe (Papa.get f (properties r)))
                 ["person"; "past12Months"; "y2d"; "may"; "june"; "july";
                  "netEarningsPrevMonth"]))
       rows).
Proof.
  induction rows as [|r rows IH]; cbn [forallb map]; intro H; [constructor|].
  apply andb_true_iff in H. destruct H as [Hr Hrows].
  constructor; [apply exportsRow_line, Hr | apply IH, Hrows].
Qed.

(** The export of three Rows of the fixtures: the header, then one line per
    Row with the raw values; the NaN of an unparseable monthlyCostDifference
    is written as NaN. *)
Example export_scenario :
  blobText (downloadBlob (handleExport [rowOf eve; rowOf jo; rowOf bob]))
  = String.concat CRLF
      [ "person,past12Months,y2d,may,june,july,netEarningsPrevMonth";
        "Eve Moss,0.42,,,,,NaN";
        "External Jo Lin,,,0.5,,,0";
        "Bob Ray,12.5,0.42,,,,NaN" ].
Proof. vm_compute. reflexivity. Qed.

(** Ana has no lastname, her person text ends with a space, and the export
    puts it between quotes. *)
Example export_trailing_space :
  blobText (downloadBlob (handleExport [rowOf ana]))
  = String.concat CRLF
      [ "person,past12Months,y2d,may,june,july,netEarningsPrevMonth";
        String "034" "Ana " ++ String "034" ",0.8,,0.33,,,0" ].
Proof. vm_compute. reflexivity. Qed.

(** C8, as amended: for every non-empty Row sequence whose numeric fields
    hold Numbers or undefined, the exported text is the header row
    person,past12Months,y2d,may,june,july,netEarningsPrevMonth, which are the
    property names of the Row objects in order, followed by one line per Row
    in order, the lines separated by CR LF. In each line the six numeric
    fields follow the person field, separated by commas: an undefined field
    is written as the empty field, and a Number as a plain numeral that
    parseFloat reads back as that very Number and that is not the text the
    percentage cell displays. For the empty Row sequence the exported text
    is empty: no header row is written. *)
Theorem C8_export_raw (rows : list TableDataType)
    (Hrows : forallb wellFormedRow rows = true) :
  match rows with
  | [] => blobText (downloadBlob (handleExport rows)) = ""
  | r :: _ =>
      exists lines,
        blobText (downloadBlob (handleExport rows))
        = String.concat CRLF
            ("person,past12Months,y2d,may,june,july,netEarningsPrevMonth" :: lines)
        /\ Forall2 exportsRow rows lines
        /\ String.concat "," (map fst (properties r))
           = "person,past12Months,y2d,may,june,july,netEarningsPrevMonth"
  end.
Proof.
  destruct rows as [|r rest]; [reflexivity|].
  eexists. split; [|split].
  - unfold handleExport. cbn [blobText downloadBlob].
    rewrite unparse_rows. reflexivity.
  - apply exportsRow_lines, Hrows.
  - reflexivity.
Qed.

(** C8 on the Rows of Ana and of Eve. *)
Lemma C8_witness :
  forallb wellFormedRow [rowOf ana; rowOf eve] = true
  /\ exists lines,
       blobText (downloadBlob (handleExport [rowOf ana; rowOf eve]))
       = String.concat CRLF
           ("person,past12Months,y2d,may,june,july,netEarningsPrevMonth" :: lines)
       /\ Forall2 exportsRow [rowOf ana; rowOf eve] lines
       /\ String.concat "," (map fst (properties (rowOf ana)))
          = "person,past12Months,y2d,may,june,july,netEarningsPrevMonth".
Proof.
  split; [vm_compute; reflexivity|].
  apply (C8_export_raw [rowOf ana; rowOf eve]). vm_compute. reflexivity.
Defined.

(** C8, as stated, fails: for the empty Row sequence the exported text is
    empty, so it has no header row. *)
Lemma C8_counterexample :
  blobText (downloadBlob (handleExport [])) = ""
  /\ String.prefix "person,past12Months,y2d,may,june,july,netEarningsPrevMonth"
       (blobText (downloadBlob (handleExport []))) = false.
Proof.
  split; reflexivity.
Qed.
